(** * Meal image analyzer (services/geminiService.ts)

    A shallow embedding of [analyzeImageWithGemini] and of the JavaScript
    built-ins it calls ([String.prototype.replace], [trim], [indexOf],
    [lastIndexOf], [substring], [JSON.parse], [JSON.stringify], optional
    chaining, truthiness and template literals), followed by the properties
    of the analyzer.

    A JavaScript string is a sequence of 16-bit code units: it is modelled
    as a list of [N].  Thrown exceptions are values of [exn]; the effects of
    a call (the file read, the HTTP request, the console) are recorded in a
    trace of [event]s. *)

From Stdlib Require Import List NArith ZArith Bool Ascii String Strings.Byte Lia.
From Stdlib Require Import Floats.SpecFloat.
Import ListNotations.

Set Warnings "-register-all".

Local Open Scope Z_scope.

(** ** Strings *)

Module JsString.

Definition jsstring := list N.

(** [js s]: the JavaScript string with the characters of the literal [s]. *)
Definition js (s : string) : jsstring :=
  List.map N_of_ascii (list_ascii_of_string s).

(** [jsq s]: as [js s], with every apostrophe of [s] standing for a double
    quote (code unit 34), so that JSON texts can be written as literals. *)
Definition jsq (s : string) : jsstring :=
  List.map (fun c => if N.eqb c 39 then 34%N else c) (js s).

Fixpoint eqb (a b : jsstring) : bool :=
  match a, b with
  | [], [] => true
  | x :: a', y :: b' => N.eqb x y && eqb a' b'
  | _, _ => false
  end.

(** [starts_with p s]: [s] begins with the code units of [p]. *)
Fixpoint starts_with (p s : jsstring) : bool :=
  match p, s with
  | [], _ => true
  | x :: p', y :: s' => N.eqb x y && starts_with p' s'
  | _ :: _, [] => false
  end.

Definition len (s : jsstring) : Z := Z.of_nat (List.length s).

(** [String.prototype.indexOf(pat)]: the least index at which [pat] occurs,
    -1 when there is none. *)
Fixpoint indexOf_from (pat s : jsstring) (i : Z) : Z :=
  if starts_with pat s then i
  else match s with
       | [] => -1
       | _ :: s' => indexOf_from pat s' (i + 1)
       end.

Definition indexOf (s pat : jsstring) : Z := indexOf_from pat s 0.

(** [String.prototype.lastIndexOf(pat)]: the greatest index at which [pat]
    occurs, -1 when there is none. *)
Fixpoint lastIndexOf (s pat : jsstring) : Z :=
  match s with
  | [] => if starts_with pat [] then 0 else -1
  | _ :: s' =>
      let r := lastIndexOf s' pat in
      if 0 <=? r then r + 1
      else if starts_with pat s then 0 else -1
  end.

(** [String.prototype.substring(start, end)]: both indices are clamped to
    [0 .. length], and swapped when [start > end]. *)
Definition clamp (i n : Z) : Z := Z.min (Z.max i 0) n.

Definition substring (s : jsstring) (istart iend : Z) : jsstring :=
  let a := clamp istart (len s) in
  let b := clamp iend (len s) in
  let from := Z.min a b in
  let to := Z.max a b in
  firstn (Z.to_nat (to - from)) (skipn (Z.to_nat from) s).

(** The code units [String.prototype.trim] strips: WhiteSpace and
    LineTerminator of ECMA-262. *)
Definition is_js_space (c : N) : bool :=
  ((9 <=? c) && (c <=? 13) || (c =? 32) || (c =? 160) || (c =? 5760)
   || (8192 <=? c) && (c <=? 8202) || (c =? 8232) || (c =? 8233)
   || (c =? 8239) || (c =? 8287) || (c =? 12288) || (c =? 65279))%N.

Fixpoint trim_start (s : jsstring) : jsstring :=
  match s with
  | c :: s' => if is_js_space c then trim_start s' else s
  | [] => []
  end.

Definition trim_end (s : jsstring) : jsstring := rev (trim_start (rev s)).

Definition trim (s : jsstring) : jsstring := trim_end (trim_start s).

End JsString.
Import JsString.

(** ** The fence-stripping replace

    [text.replace(/```json|```/g, "")]: the scan goes left to right; at each
    position the alternatives are tried in order, a match is dropped and the
    scan resumes after it.  [skip] counts the code units of the current
    match that are still to be dropped. *)

Definition fence : jsstring := js "```".
Definition fence_json : jsstring := js "```json".

Fixpoint strip_fences_from (skip : nat) (s : jsstring) : jsstring :=
  match s with
  | [] => []
  | c :: s' =>
      match skip with
      | S k => strip_fences_from k s'
      | O =>
          if starts_with fence_json s then strip_fences_from 6 s'
          else if starts_with fence s then strip_fences_from 2 s'
          else c :: strip_fences_from 0 s'
      end
  end.

Definition strip_fences (s : jsstring) : jsstring := strip_fences_from 0 s.

(** ** Numbers

    A JavaScript Number is an IEEE 754 binary64 value, here a [spec_float]
    of precision 53.  [of_decimal] is the rounding of a decimal literal to
    the nearest Number (ties to even) that [JSON.parse] performs, and
    [to_string] is Number::toString: the shortest decimal that reads back
    as the same Number. *)

Module Number.

Definition number := spec_float.

Definition prec : Z := 53.
Definition emax : Z := 1024.

Definition of_Z (z : Z) : number := binary_normalize prec emax z 0 false.

(** The Number nearest to [m * 10 ^ e10], for [0 <= m]. *)
Definition of_decimal (neg : bool) (m e10 : Z) : number :=
  match m with
  | Zpos p =>
      let l := Z.log2 m in
      if 310 <=? e10 + (3 * l) / 10 then S754_infinity neg
      else if e10 + (31 * (l + 1)) / 100 + 1 <=? -330 then S754_zero neg
      else if 0 <=? e10 then
        match m * 10 ^ e10 with
        | Zpos q => binary_round prec emax neg q 0
        | _ => S754_zero neg
        end
      else
        let d := 10 ^ (- e10) in
        let s := Z.max 0 (Z.log2 d - l + 66) in
        let n := m * 2 ^ s in
        match 2 * (n / d) + (if n mod d =? 0 then 0 else 1) with
        | Zpos q => binary_round prec emax neg q (- s - 1)
        | _ => S754_zero neg
        end
  | _ => S754_zero neg
  end.

(** ToBoolean on a Number: false for +0, -0 and NaN. *)
Definition truthy (x : number) : bool :=
  match x with
  | S754_zero _ | S754_nan => false
  | _ => true
  end.

Definition is_finite (x : number) : bool :=
  match x with
  | S754_zero _ | S754_finite _ _ _ => true
  | _ => false
  end.

(** The decimal digits of a natural number, most significant first. *)
Fixpoint digits_fuel (fuel : nat) (z : Z) (acc : jsstring) : jsstring :=
  match fuel with
  | O => acc
  | S f =>
      let acc' := (48 + Z.to_N (z mod 10))%N :: acc in
      if z <? 10 then acc' else digits_fuel f (z / 10) acc'
  end.

Definition digits (z : Z) : jsstring :=
  digits_fuel (S (Z.to_nat (Z.log2 z))) z [].

(** [x] as the fraction [num / den] of a positive finite Number. *)
Definition fraction (m : positive) (e : Z) : Z * Z :=
  if 0 <=? e then (Zpos m * 2 ^ e, 1) else (Zpos m, 2 ^ (- e)).

(** [floor (num / den / 10 ^ p)]. *)
Definition scaled_floor (num den p : Z) : Z :=
  if 0 <=? p then num / (den * 10 ^ p) else (num * 10 ^ (- p)) / den.

(** [10 ^ n <= num / den]. *)
Definition pow10_le (num den n : Z) : bool :=
  if 0 <=? n then 10 ^ n * den <=? num else den <=? num * 10 ^ (- n).

(** The least [n] from [n0] on with [num / den < 10 ^ n]. *)
Fixpoint magnitude (fuel : nat) (num den n0 : Z) : Z :=
  match fuel with
  | O => n0
  | S f => if pow10_le num den n0 then magnitude f num den (n0 + 1) else n0
  end.

(** [| num / den - s * 10 ^ p |], scaled by the positive [den * 10 ^ |p|]. *)
Definition distance (num den s p : Z) : Z :=
  if 0 <=? p then Z.abs (num - s * 10 ^ p * den)
  else Z.abs (num * 10 ^ (- p) - s * den).

(** The candidates with [k] digits: the two decimals around [x], kept when
    they read back as [x]; the closer one wins, the even one on a tie. *)
Definition candidate (x : number) (num den n : Z) (k : Z) : option (Z * Z) :=
  let p := n - k in
  let lo := scaled_floor num den p in
  let hi := lo + 1 in
  let ok s := SFeqb (of_decimal false s p) x in
  match ok lo, ok hi with
  | true, true =>
      match distance num den lo p ?= distance num den hi p with
      | Lt => Some (lo, p)
      | Gt => Some (hi, p)
      | Eq => if Z.even lo then Some (lo, p) else Some (hi, p)
      end
  | true, false => Some (lo, p)
  | false, true => Some (hi, p)
  | false, false => None
  end.

Fixpoint shortest (fuel : nat) (x : number) (num den n k : Z) : Z * Z :=
  match fuel with
  | O => (scaled_floor num den (n - k), n - k)
  | S f =>
      match candidate x num den n k with
      | Some sp => sp
      | None => shortest f x num den n (k + 1)
      end
  end.

Fixpoint strip_zeros (fuel : nat) (s p : Z) : Z * Z :=
  match fuel with
  | O => (s, p)
  | S f => if (s mod 10 =? 0) && (0 <? s) then strip_zeros f (s / 10) (p + 1)
           else (s, p)
  end.

Definition zeros (n : Z) : jsstring := repeat 48%N (Z.to_nat n).

(** The layout of Number::toString for the digits [ds] of [s] and the
    exponent [n] with [x = 0.ds * 10 ^ n]. *)
Definition layout (ds : jsstring) (n : Z) : jsstring :=
  let k := len ds in
  if (k <=? n) && (n <=? 21) then ds ++ zeros (n - k)
  else if (0 <? n) && (n <=? 21) then
    firstn (Z.to_nat n) ds ++ js "." ++ skipn (Z.to_nat n) ds
  else if (-6 <? n) && (n <=? 0) then js "0." ++ zeros (- n) ++ ds
  else
    let e := n - 1 in
    let sign := if 0 <=? e then js "+" else js "-" in
    match ds with
    | [d] => [d] ++ js "e" ++ sign ++ digits (Z.abs e)
    | d :: rest => [d] ++ js "." ++ rest ++ js "e" ++ sign ++ digits (Z.abs e)
    | [] => []
    end.

Definition to_string (x : number) : jsstring :=
  match x with
  | S754_nan => js "NaN"
  | S754_zero _ => js "0"
  | S754_infinity neg => if neg then js "-Infinity" else js "Infinity"
  | S754_finite neg m e =>
      let '(num, den) := fraction m e in
      let est := ((Z.log2 (Zpos m) + e) * 30103) / 100000 in
      let n := magnitude 5 num den (est - 1) in
      let '(s0, p0) := shortest 17 (S754_finite false m e) num den n 1 in
      let '(s, p) := strip_zeros 20 s0 p0 in
      let ds := digits s in
      (if neg then js "-" else []) ++ layout ds (p + len ds)
  end.

End Number.

(** ** Values and exceptions

    The values the analyzer handles all come out of [JSON.parse] (or of
    [response.json()]), so a value is a JSON value; [undefined] is the
    [None] of [option value].  An object lists its own properties in
    property order, without duplicate keys. *)

Inductive value : Type :=
  | JNull
  | JBool (b : bool)
  | JNumber (n : Number.number)
  | JString (s : jsstring)
  | JArray (elements : list value)
  | JObject (props : list (jsstring * value)).

Inductive exn : Type :=
  | Error (message : jsstring)   (* [new Error(message)] *)
  | TypeError                    (* raised by the runtime *)
  | SyntaxError.                 (* raised by a JSON parse *)

Definition result (A : Type) : Type := (exn + A)%type.

(** ToBoolean. *)
Definition truthy (v : option value) : bool :=
  match v with
  | None | Some JNull => false
  | Some (JBool b) => b
  | Some (JNumber n) => Number.truthy n
  | Some (JString s) => match s with [] => false | _ => true end
  | Some (JArray _) | Some (JObject _) => true
  end.

Fixpoint lookup (props : list (jsstring * value)) (k : jsstring) : option value :=
  match props with
  | [] => None
  | (k', v) :: rest => if JsString.eqb k' k then Some v else lookup rest k
  end.

(** [v.k] on a value that is neither [null] nor [undefined], for a name [k]
    that no built-in prototype defines (as are [candidates], [content],
    [parts], [text], [error] and [message]): only an object can have it. *)
Definition get_prop (v : value) (k : jsstring) : option value :=
  match v with
  | JObject props => lookup props k
  | _ => None
  end.

(** [v[0]] on a value that is neither [null] nor [undefined]. *)
Definition get_index0 (v : value) : option value :=
  match v with
  | JArray l => List.hd_error l
  | JString (c :: _) => Some (JString [c])
  | JObject props => lookup props (js "0")
  | _ => None
  end.

(** Optional chaining [a?.f]: [undefined] when [a] is [null] or
    [undefined]. *)
Definition opt_chain (a : option value) (f : value -> option value) : option value :=
  match a with
  | None | Some JNull => None
  | Some v => f v
  end.

(** [a || b], for a [b] that is defined. *)
Definition or_else (a : option value) (b : value) : value :=
  match a with
  | Some v => if truthy a then v else b
  | None => b
  end.

(** ToString, as a template literal applies it.  An object without an own
    [toString] property prints through [Object.prototype.toString]; with
    one (never callable in a JSON value) the conversion raises a
    TypeError.  An array prints through [Array.prototype.join]. *)
Fixpoint to_string (v : value) : result jsstring :=
  match v with
  | JNull => inr (js "null")
  | JBool b => inr (if b then js "true" else js "false")
  | JNumber n => inr (Number.to_string n)
  | JString s => inr s
  | JArray l =>
      let element x :=
        match x with
        | JNull => inr []
        | _ => to_string x
        end in
      (fix join (l : list value) : result jsstring :=
         match l with
         | [] => inr []
         | [x] => element x
         | x :: rest =>
             match element x, join rest with
             | inr a, inr b => inr (a ++ js "," ++ b)
             | inl e, _ => inl e
             | _, inl e => inl e
             end
         end) l
  | JObject props =>
      match lookup props (js "toString") with
      | Some _ => inl TypeError
      | None => inr (js "[object Object]")
      end
  end.

(** ** JSON.parse *)

Module JSON.

Definition is_ws (c : N) : bool :=
  ((c =? 9) || (c =? 10) || (c =? 13) || (c =? 32))%N.

Fixpoint skip_ws (s : jsstring) : jsstring :=
  match s with
  | c :: s' => if is_ws c then skip_ws s' else s
  | [] => []
  end.

Definition is_digit (c : N) : bool := ((48 <=? c) && (c <=? 57))%N.

Definition hex_digit (c : N) : option N :=
  if is_digit c then Some (c - 48)%N
  else if ((97 <=? c) && (c <=? 102))%N then Some (c - 87)%N
  else if ((65 <=? c) && (c <=? 70))%N then Some (c - 55)%N
  else None.

(** The code unit of a one-letter escape. *)
Definition escape (c : N) : option N :=
  if (c =? 34)%N then Some 34%N          (* quotation mark *)
  else if (c =? 92)%N then Some 92%N     (* reverse solidus *)
  else if (c =? 47)%N then Some 47%N     (* solidus *)
  else if (c =? 98)%N then Some 8%N      (* b: backspace *)
  else if (c =? 102)%N then Some 12%N    (* f: form feed *)
  else if (c =? 110)%N then Some 10%N    (* n: line feed *)
  else if (c =? 114)%N then Some 13%N    (* r: carriage return *)
  else if (c =? 116)%N then Some 9%N     (* t: tab *)
  else None.

(** The characters of a string literal after its opening quote, up to the
    closing quote. *)
Fixpoint parse_chars (s : jsstring) : option (jsstring * jsstring) :=
  match s with
  | [] => None
  | c :: r =>
      if (c =? 34)%N then Some ([], r)
      else if (c =? 92)%N then
        match r with
        | [] => None
        | e :: r1 =>
            if (e =? 117)%N then
              match r1 with
              | h1 :: h2 :: h3 :: h4 :: r2 =>
                  match hex_digit h1, hex_digit h2, hex_digit h3, hex_digit h4 with
                  | Some a, Some b, Some c', Some d =>
                      match parse_chars r2 with
                      | Some (str, rest) =>
                          Some ((a * 4096 + b * 256 + c' * 16 + d)%N :: str, rest)
                      | None => None
                      end
                  | _, _, _, _ => None
                  end
              | _ => None
              end
            else
              match escape e with
              | Some x =>
                  match parse_chars r1 with
                  | Some (str, rest) => Some (x :: str, rest)
                  | None => None
                  end
              | None => None
              end
        end
      else if (c <? 32)%N then None
      else
        match parse_chars r with
        | Some (str, rest) => Some (c :: str, rest)
        | None => None
        end
  end.

Fixpoint take_digits (s : jsstring) : jsstring * jsstring :=
  match s with
  | c :: r =>
      if is_digit c then let '(ds, rest) := take_digits r in (c :: ds, rest)
      else ([], s)
  | [] => ([], [])
  end.

Definition digits_value (ds : jsstring) : Z :=
  fold_left (fun acc c => acc * 10 + Z.of_N (c - 48)) ds 0.

(** A number literal: an optional minus sign; the integer part, a single 0
    or digits that do not start with 0; an optional fraction, a point and at
    least one digit; an optional exponent, e or E, an optional sign and at
    least one digit. *)
Definition parse_sign (s : jsstring) : bool * jsstring :=
  match s with
  | c :: r => if (c =? 45)%N then (true, r) else (false, s)
  | [] => (false, s)
  end.

Definition parse_int (s : jsstring) : option (jsstring * jsstring) :=
  match s with
  | c :: r =>
      if (c =? 48)%N then Some ([c], r)
      else if is_digit c then Some (take_digits s)
      else None
  | [] => None
  end.

Definition parse_frac (s : jsstring) : option (jsstring * jsstring) :=
  match s with
  | c :: r =>
      if (c =? 46)%N then
        match take_digits r with
        | ([], _) => None
        | (fds, rest) => Some (fds, rest)
        end
      else Some ([], s)
  | [] => Some ([], s)
  end.

Definition parse_exp_sign (s : jsstring) : bool * jsstring :=
  match s with
  | c :: r =>
      if (c =? 45)%N then (true, r)
      else if (c =? 43)%N then (false, r)
      else (false, s)
  | [] => (false, s)
  end.

Definition parse_exp (s : jsstring) : option (Z * jsstring) :=
  match s with
  | c :: r =>
      if ((c =? 101) || (c =? 69))%N then
        let '(eneg, r1) := parse_exp_sign r in
        match take_digits r1 with
        | ([], _) => None
        | (eds, rest) =>
            Some ((if eneg then - digits_value eds else digits_value eds), rest)
        end
      else Some (0, s)
  | [] => Some (0, s)
  end.

Definition parse_number (s : jsstring) : option (Number.number * jsstring) :=
  let '(neg, s1) := parse_sign s in
  match parse_int s1 with
  | None => None
  | Some (ids, s2) =>
      match parse_frac s2 with
      | None => None
      | Some (fds, s3) =>
          match parse_exp s3 with
          | None => None
          | Some (e, s4) =>
              Some (Number.of_decimal neg (digits_value (ids ++ fds)) (e - len fds), s4)
          end
      end
  end.

(** An array index: the canonical decimal of an integer below [2^32 - 1].
    Such keys come first in property order, in ascending order. *)
Definition array_index (k : jsstring) : option Z :=
  match k with
  | [] => None
  | c :: r =>
      if forallb is_digit k && (negb (c =? 48)%N || match r with [] => true | _ => false end)
         && (len k <=? 10) && (digits_value k <? 4294967295)
      then Some (digits_value k)
      else None
  end.

Fixpoint replace_prop (props : list (jsstring * value)) (k : jsstring) (v : value)
  : list (jsstring * value) :=
  match props with
  | [] => []
  | (k', v') :: rest =>
      if JsString.eqb k' k then (k', v) :: rest else (k', v') :: replace_prop rest k v
  end.

Fixpoint insert_index (props : list (jsstring * value)) (i : Z) (k : jsstring) (v : value)
  : list (jsstring * value) :=
  match props with
  | [] => [(k, v)]
  | (k', v') :: rest =>
      match array_index k' with
      | Some j => if j <? i then (k', v') :: insert_index rest i k v
                  else (k, v) :: props
      | None => (k, v) :: props
      end
  end.

(** CreateDataProperty on a parsed object: a repeated key overwrites the
    value in place, a new key takes its place in property order. *)
Definition set_prop (props : list (jsstring * value)) (k : jsstring) (v : value)
  : list (jsstring * value) :=
  match lookup props k with
  | Some _ => replace_prop props k v
  | None =>
      match array_index k with
      | Some i => insert_index props i k v
      | None => props ++ [(k, v)]
      end
  end.

(** A member [ws string ws : value] of an object. *)
Definition parse_member (parse : jsstring -> option (value * jsstring)) (s : jsstring)
  : option (jsstring * value * jsstring) :=
  match skip_ws s with
  | c :: r =>
      if (c =? 34)%N then
        match parse_chars r with
        | Some (k, r1) =>
            match skip_ws r1 with
            | c1 :: r2 =>
                if (c1 =? 58)%N then
                  match parse r2 with
                  | Some (v, r3) => Some (k, v, r3)
                  | None => None
                  end
                else None
            | [] => None
            end
        | None => None
        end
      else None
  | [] => None
  end.

Definition literal (word : jsstring) (v : value) (s : jsstring) : option (value * jsstring) :=
  if starts_with word s then Some (v, skipn (List.length word) s) else None.

(** Recursive descent.  Every recursive call is made on a strictly shorter
    input, so a fuel above the length of the input is never used up. *)
Fixpoint parse_value (fuel : nat) (s : jsstring) : option (value * jsstring) :=
  match fuel with
  | O => None
  | S f =>
      match skip_ws s with
      | [] => None
      | c :: r =>
          if (c =? 123)%N then                          (* { *)
            match skip_ws r with
            | c1 :: r1 =>
                if (c1 =? 125)%N then Some (JObject [], r1)
                else
                  match parse_member (parse_value f) r with
                  | Some (k, v, r2) => parse_members f [(k, v)] r2
                  | None => None
                  end
            | [] => None
            end
          else if (c =? 91)%N then                      (* [ *)
            match skip_ws r with
            | c1 :: r1 =>
                if (c1 =? 93)%N then Some (JArray [], r1)
                else
                  match parse_value f r with
                  | Some (v, r2) => parse_elements f [v] r2
                  | None => None
                  end
            | [] => None
            end
          else if (c =? 34)%N then
            match parse_chars r with
            | Some (str, rest) => Some (JString str, rest)
            | None => None
            end
          else if (c =? 116)%N then literal (js "true") (JBool true) (c :: r)
          else if (c =? 102)%N then literal (js "false") (JBool false) (c :: r)
          else if (c =? 110)%N then literal (js "null") JNull (c :: r)
          else
            match parse_number (c :: r) with
            | Some (n, rest) => Some (JNumber n, rest)
            | None => None
            end
      end
  end

with parse_members (fuel : nat) (acc : list (jsstring * value)) (s : jsstring)
  : option (value * jsstring) :=
  match fuel with
  | O => None
  | S f =>
      match skip_ws s with
      | c :: r =>
          if (c =? 125)%N then Some (JObject acc, r)    (* } *)
          else if (c =? 44)%N then
            match parse_member (parse_value f) r with
            | Some (k, v, r1) => parse_members f (set_prop acc k v) r1
            | None => None
            end
          else None
      | [] => None
      end
  end

with parse_elements (fuel : nat) (acc : list value) (s : jsstring)
  : option (value * jsstring) :=
  match fuel with
  | O => None
  | S f =>
      match skip_ws s with
      | c :: r =>
          if (c =? 93)%N then Some (JArray (rev acc), r)   (* ] *)
          else if (c =? 44)%N then
            match parse_value f r with
            | Some (v, r1) => parse_elements f (v :: acc) r1
            | None => None
            end
          else None
      | [] => None
      end
  end.

(** [JSON.parse(text)]: one value, with only white space around it; a
    SyntaxError otherwise. *)
Definition parse (text : jsstring) : result value :=
  match parse_value (S (List.length text)) text with
  | Some (v, rest) =>
      match skip_ws rest with
      | [] => inr v
      | _ :: _ => inl SyntaxError
      end
  | None => inl SyntaxError
  end.

(** *** JSON.stringify *)

Definition hex_char (d : N) : N := if (d <? 10)%N then (48 + d)%N else (87 + d)%N.

Definition unicode_escape (c : N) : jsstring :=
  js "\u" ++ [hex_char (c / 4096 mod 16); hex_char (c / 256 mod 16);
              hex_char (c / 16 mod 16); hex_char (c mod 16)]%N.

Definition is_lead (c : N) : bool := ((55296 <=? c) && (c <=? 56319))%N.
Definition is_trail (c : N) : bool := ((56320 <=? c) && (c <=? 57343))%N.

Fixpoint quote_chars (s : jsstring) : jsstring :=
  match s with
  | [] => []
  | c :: r =>
      if (c =? 8)%N then js "\b" ++ quote_chars r
      else if (c =? 9)%N then js "\t" ++ quote_chars r
      else if (c =? 10)%N then js "\n" ++ quote_chars r
      else if (c =? 12)%N then js "\f" ++ quote_chars r
      else if (c =? 13)%N then js "\r" ++ quote_chars r
      else if (c =? 34)%N then [92; 34]%N ++ quote_chars r
      else if (c =? 92)%N then js "\\" ++ quote_chars r
      else if (c <? 32)%N then unicode_escape c ++ quote_chars r
      else if is_lead c then
        match r with
        | d :: r' =>
            if is_trail d then c :: d :: quote_chars r'
            else unicode_escape c ++ quote_chars r
        | [] => unicode_escape c
        end
      else if is_trail c then unicode_escape c ++ quote_chars r
      else c :: quote_chars r
  end.

(** QuoteJSONString. *)
Definition quote (s : jsstring) : jsstring := [34%N] ++ quote_chars s ++ [34%N].

(** [JSON.stringify(value)], without indentation. *)
Fixpoint stringify (v : value) : jsstring :=
  match v with
  | JNull => js "null"
  | JBool b => if b then js "true" else js "false"
  | JNumber n => if Number.is_finite n then Number.to_string n else js "null"
  | JString s => quote s
  | JArray l =>
      js "[" ++
      (fix items (l : list value) : jsstring :=
         match l with
         | [] => []
         | [x] => stringify x
         | x :: rest => stringify x ++ js "," ++ items rest
         end) l ++ js "]"
  | JObject props =>
      js "{" ++
      (fix members (ps : list (jsstring * value)) : jsstring :=
         match ps with
         | [] => []
         | [(k, x)] => quote k ++ js ":" ++ stringify x
         | (k, x) :: rest => quote k ++ js ":" ++ stringify x ++ js "," ++ members rest
         end) props ++ js "}"
  end.

End JSON.

(** ** The wire encoding of the image *)

Module Base64.

(** The alphabet of RFC 4648, section 4. *)
Definition char_of_sextet (n : N) : N :=
  (if n <? 26 then 65 + n
   else if n <? 52 then 97 + (n - 26)
   else if n <? 62 then 48 + (n - 52)
   else if n =? 62 then 43 else 47)%N.

Definition sextet_of_char (c : N) : option N :=
  (if (65 <=? c) && (c <=? 90) then Some (c - 65)
   else if (97 <=? c) && (c <=? 122) then Some (c - 97 + 26)
   else if (48 <=? c) && (c <=? 57) then Some (c - 48 + 52)
   else if c =? 43 then Some 62
   else if c =? 47 then Some 63
   else None)%N.

Definition pad : N := 61%N.

(** Modelled from the spec: [File.base64()] of expo-file-system is not part
    of the sources; the spec calls its result the base64 text encoding of
    the image bytes.  This is the standard encoding with padding
    (RFC 4648, section 4): three bytes give four characters. *)
Fixpoint encode (bs : list byte) : jsstring :=
  match bs with
  | [] => []
  | [a] =>
      let a := Byte.to_N a in
      [char_of_sextet (a / 4); char_of_sextet (a mod 4 * 16); pad; pad]%N
  | [a; b] =>
      let a := Byte.to_N a in
      let b := Byte.to_N b in
      [char_of_sextet (a / 4); char_of_sextet (a mod 4 * 16 + b / 16);
       char_of_sextet (b mod 16 * 4); pad]%N
  | a :: b :: c :: rest =>
      let a := Byte.to_N a in
      let b := Byte.to_N b in
      let c := Byte.to_N c in
      [char_of_sextet (a / 4); char_of_sextet (a mod 4 * 16 + b / 16);
       char_of_sextet (b mod 16 * 4 + c / 64); char_of_sextet (c mod 64)]%N
      ++ encode rest
  end.

Definition byte_of (n : N) : option byte := Byte.of_N n.

Definition is_nil {A : Type} (l : list A) : bool :=
  match l with [] => true | _ => false end.

(** Modelled from the spec: the decoding of the wire text, which the
    sources do not have either; four characters give three bytes, and the
    last group may be padded. *)
Fixpoint decode (s : jsstring) : option (list byte) :=
  match s with
  | [] => Some []
  | c0 :: c1 :: c2 :: c3 :: rest =>
      if (c2 =? pad)%N && (c3 =? pad)%N && is_nil rest then
        match sextet_of_char c0, sextet_of_char c1 with
        | Some s0, Some s1 =>
            match byte_of (s0 * 4 + s1 / 16)%N with
            | Some a => Some [a]
            | None => None
            end
        | _, _ => None
        end
      else if (c3 =? pad)%N && is_nil rest then
        match sextet_of_char c0, sextet_of_char c1, sextet_of_char c2 with
        | Some s0, Some s1, Some s2 =>
            match byte_of (s0 * 4 + s1 / 16)%N,
                  byte_of (s1 mod 16 * 16 + s2 / 4)%N with
            | Some a, Some b => Some [a; b]
            | _, _ => None
            end
        | _, _, _ => None
        end
      else
        match sextet_of_char c0, sextet_of_char c1,
              sextet_of_char c2, sextet_of_char c3 with
        | Some s0, Some s1, Some s2, Some s3 =>
            match byte_of (s0 * 4 + s1 / 16)%N,
                  byte_of (s1 mod 16 * 16 + s2 / 4)%N,
                  byte_of (s2 mod 4 * 64 + s3)%N,
                  decode rest with
            | Some a, Some b, Some c, Some bs => Some (a :: b :: c :: bs)
            | _, _, _, _ => None
            end
        | _, _, _, _ => None
        end
  | _ => None
  end.

End Base64.

(** ** The world around the analyzer, and its effects *)

Record Request : Type := {
  url : jsstring;
  method : jsstring;
  headers : list (jsstring * jsstring);
  body : jsstring
}.

(** What the analyzer reads of a [fetch] response: [ok], [statusText] and
    the outcome of [response.json()]. *)
Record Response : Type := {
  ok : bool;
  statusText : jsstring;
  json : result value
}.

(** The configuration and the two services the analyzer calls.  A file read
    and a request may each be rejected with an exception. *)
Record World : Type := {
  GEMINI_API_KEY : jsstring;
  file_bytes : jsstring -> result (list byte);
  fetch : Request -> result Response
}.

Inductive event : Type :=
  | FileRead (uri : jsstring)
  | Fetch (request : Request)
  | ConsoleError (args : list value).

(** A computation: the events it has performed, and an exception or a
    value. *)
Definition M (A : Type) : Type := (list event * result A)%type.

Definition ret {A : Type} (x : A) : M A := ([], inr x).
Definition throw {A : Type} (e : exn) : M A := ([], inl e).
Definition emit (ev : event) : M unit := ([ev], inr tt).
Definition lift {A : Type} (r : result A) : M A := ([], r).

Definition bind {A B : Type} (m : M A) (k : A -> M B) : M B :=
  match m with
  | (t, inl e) => (t, inl e)
  | (t, inr x) => let '(t', r) := k x in (t ++ t', r)
  end.

Definition try_catch {A : Type} (m : M A) (handler : exn -> M A) : M A :=
  match m with
  | (t, inl e) => let '(t', r) := handler e in (t ++ t', r)
  | (t, inr x) => (t, inr x)
  end.

Notation "x <- m ;; k" := (bind m (fun x => k))
  (at level 61, m at next level, right associativity).

Definition trace {A : Type} (m : M A) : list event := fst m.
Definition outcome {A : Type} (m : M A) : result A := snd m.

(** The requests submitted to the network during a computation. *)
Definition requests (t : list event) : list Request :=
  flat_map (fun ev => match ev with Fetch r => [r] | _ => [] end) t.

(** ** services/geminiService.ts *)

(** The module refuses to load without [GEMINI_API_KEY]; the analyzer only
    runs with a key, which is spliced into the URL. *)
Definition API_URL (w : World) : jsstring :=
  js "https://generativelanguage.googleapis.com/v1beta/models/gemini-2.5-flash:generateContent?key="
  ++ GEMINI_API_KEY w.

(** The interface [Meal], as a caller reads it off the returned value. *)
Record Meal : Type := {
  meal_name : option value;
  description : option value;
  calories : option value;
  protein_g : option value;
  carbs_g : option value;
  fat_g : option value
}.

Definition as_Meal (v : value) : Meal := {|
  meal_name := get_prop v (js "meal_name");
  description := get_prop v (js "description");
  calories := get_prop v (js "calories");
  protein_g := get_prop v (js "protein_g");
  carbs_g := get_prop v (js "carbs_g");
  fat_g := get_prop v (js "fat_g")
|}.

Definition MealRecognitionPrompt : jsstring :=
  jsq "You are a meal recognition AI. Identify the food in this image and return ONLY a JSON object with the following structure:
{
  'meal_name': '...',
  'description': '...',
  'calories': 0,
  'protein_g': 0,
  'carbs_g': 0,
  'fat_g': 0
}".

Definition supportedMimeTypes : list jsstring :=
  [js "image/jpeg"; js "image/png"; js "image/webp"; js "image/heic"; js "image/heif"].

(** [Array.prototype.includes] on an array of strings. *)
Definition includes (l : list jsstring) (x : jsstring) : bool :=
  existsb (fun y => JsString.eqb y x) l.

(** The four failures the analyzer raises itself. *)
Definition UnsupportedFormat (mimeType : jsstring) : exn :=
  Error (js "Unsupported image format: " ++ mimeType ++ js ". Convert to JPEG or PNG.").

Definition UpstreamError (message : jsstring) : exn :=
  Error (js "API Error: " ++ message).

Definition EmptyResponse : exn :=
  Error (js "No content returned from Gemini API.").

Definition malformed_message : jsstring :=
  js "Received an invalid format from the AI. Response was not a valid JSON object.".

Definition MalformedPayload : exn := Error malformed_message.

(** The object passed to [JSON.stringify] for the request body. *)
Definition request_payload (mimeType base64Image : jsstring) : value :=
  JObject [(js "contents", JArray [
    JObject [(js "parts", JArray [
      JObject [(js "text", JString MealRecognitionPrompt)];
      JObject [(js "inline_data", JObject [
        (js "mime_type", JString mimeType);
        (js "data", JString base64Image)])]])]])].

Definition build_request (w : World) (mimeType base64Image : jsstring) : Request := {|
  url := API_URL w;
  method := js "POST";
  headers := [(js "Content-Type", js "application/json")];
  body := JSON.stringify (request_payload mimeType base64Image)
|}.

(** [data?.candidates?.[0]?.content?.parts?.[0]?.text] *)
Definition first_text (data : value) : option value :=
  let candidates := opt_chain (Some data) (fun d => get_prop d (js "candidates")) in
  let candidate := opt_chain candidates get_index0 in
  let content := opt_chain candidate (fun c => get_prop c (js "content")) in
  let parts := opt_chain content (fun c => get_prop c (js "parts")) in
  let part := opt_chain parts get_index0 in
  opt_chain part (fun p => get_prop p (js "text")).

(** [errorData.error?.message]: the first access is not optional and raises
    a TypeError on [null]. *)
Definition error_message (errorData : value) : result (option value) :=
  match errorData with
  | JNull => inl TypeError
  | _ => inr (opt_chain (get_prop errorData (js "error"))
                        (fun e => get_prop e (js "message")))
  end.

(** The slice of the cleaned text that is handed to [JSON.parse]. *)
Definition json_slice (text : jsstring) : jsstring :=
  let cleanedText := trim (strip_fences text) in
  let jsonStart := indexOf cleanedText (js "{") in
  let jsonEnd := lastIndexOf cleanedText (js "}") + 1 in
  substring cleanedText jsonStart jsonEnd.

(** The body of the inner [try]: a [text] that is not a string has no
    [replace] method, and the call raises a TypeError. *)
Definition extract (text : value) : result value :=
  match text with
  | JString s => JSON.parse (json_slice s)
  | _ => inl TypeError
  end.

Definition parse_failure_log : jsstring := js "Failed to parse JSON from API response:".

(** Lines 71-74: the branch of a response that is not [ok]. *)
Definition upstream_failure (response : Response) : M value :=
  errorData <- lift (json response);;
  message <- lift (error_message errorData);;
  shown <- lift (to_string (or_else message (JString (statusText response))));;
  throw (UpstreamError shown).

(** Lines 76-93: the branch of an [ok] response. *)
Definition read_reply (response : Response) : M value :=
  data <- lift (json response);;
  match first_text data with
  | Some text =>
      if negb (truthy (Some text)) then throw EmptyResponse
      else
        try_catch
          (lift (extract text))
          (fun parseError =>
             _ <- emit (ConsoleError [JString parse_failure_log; text]);;
             throw MalformedPayload)
  | None => throw EmptyResponse
  end.

Definition handle_response (response : Response) : M value :=
  if negb (ok response) then upstream_failure response else read_reply response.

(** The default value of the parameter [mimeType]. *)
Definition mime_or_default (mimeType : option jsstring) : jsstring :=
  match mimeType with
  | Some m => m
  | None => js "image/jpeg"
  end.

Definition analyzeImageWithGemini (w : World) (uri : jsstring) (mimeType : option jsstring)
  : M value :=
  let mimeType := mime_or_default mimeType in
  try_catch
    (_ <- emit (FileRead uri);;
     bytes <- lift (file_bytes w uri);;
     let base64Image := Base64.encode bytes in
     if negb (includes supportedMimeTypes mimeType) then
       throw (UnsupportedFormat mimeType)
     else
       let request := build_request w mimeType base64Image in
       _ <- emit (Fetch request);;
       response <- lift (fetch w request);;
       handle_response response)
    (fun error => throw error).

(** ** Notions used in the statements *)

Definition lbrace : N := 123.
Definition rbrace : N := 125.

Definition brace_free (s : jsstring) : Prop := ~ In lbrace s /\ ~ In rbrace s.

(** The code units that [trim] strips. *)
Definition spaces (w : jsstring) : Prop := Forall (fun c => is_js_space c = true) w.

(** The extraction in the words of the specification: the substring from
    the first opening brace to the last closing brace, both included; empty
    when there is no such substring. *)
Fixpoint from_first (c : N) (s : jsstring) : jsstring :=
  match s with
  | [] => []
  | x :: s' => if (x =? c)%N then s else from_first c s'
  end.

Definition upto_last (c : N) (s : jsstring) : jsstring := rev (from_first c (rev s)).

Definition spec_payload (cleaned : jsstring) : jsstring :=
  upto_last rbrace (from_first lbrace cleaned).

(** A payload between fence markers, with prose around the fences:
    [prose_before], the opening fence, a line feed, the payload, a line
    feed, the closing fence, [prose_after]. *)
Definition wrap_in_fences (prose_before prose_after payload : jsstring) : jsstring :=
  prose_before ++ fence_json ++ [10%N] ++ payload ++ [10%N] ++ fence ++ prose_after.

(** A parser that consumes input. *)
Definition consuming (parse : jsstring -> option (value * jsstring)) : Prop :=
  forall s v rest, parse s = Some (v, rest) -> (List.length rest < List.length s)%nat.

(** The upstream call of [analyzeImageWithGemini w uri mimeType] is made and
    answered by [response]: the image is read, the media type is in the
    list, and [fetch] resolves. *)
Definition answered (w : World) (uri : jsstring) (mimeType : option jsstring)
           (response : Response) : Prop :=
  exists bytes,
    file_bytes w uri = inr bytes
    /\ includes supportedMimeTypes (mime_or_default mimeType) = true
    /\ fetch w (build_request w (mime_or_default mimeType) (Base64.encode bytes))
       = inr response.

(** What the branch of an [ok] response does with the text it finds
    (see [read_reply_outcome]). *)
Definition reply_outcome (text : option value) : result value :=
  match text with
  | Some t =>
      if truthy (Some t) then
        match extract t with
        | inr v => inr v
        | inl _ => inl MalformedPayload
        end
      else inl EmptyResponse
  | None => inl EmptyResponse
  end.

(** The keys of the JSON template in the instruction. *)
Definition prompt_keys : option (list jsstring) :=
  match extract (JString MealRecognitionPrompt) with
  | inr (JObject props) => Some (List.map fst props)
  | _ => None
  end.

(** ** Sample worlds and responses, for the instances of the theorems *)

Definition sample_uri : jsstring := js "file:///meal.jpg".

Definition sample_bytes : list byte := [x48; x69; x21].

(** A world in which the image is read and [fetch] settles with [r]. *)
Definition world_with (r : result Response) : World := {|
  GEMINI_API_KEY := js "key";
  file_bytes := fun _ => inr sample_bytes;
  fetch := fun _ => r
|}.

(** A world in which the image cannot be read. *)
Definition unreadable_world : World := {|
  GEMINI_API_KEY := js "key";
  file_bytes := fun _ => inl (Error (js "File does not exist"));
  fetch := fun _ => inl TypeError
|}.

(** The response envelope with one candidate that has one part. *)
Definition envelope (text : value) : value :=
  JObject [(js "candidates", JArray [
    JObject [(js "content", JObject [
      (js "parts", JArray [JObject [(js "text", text)]])])]])].

Definition reply (text : value) : Response :=
  {| ok := true; statusText := js "OK"; json := inr (envelope text) |}.

(** In a sample world the upstream call is made and answered. *)
Ltac sample_answered := exists sample_bytes; repeat split; reflexivity.

Definition apple_text : jsstring :=
  jsq "{'name':'Apple','description':'A fruit','calories':95,'protein_g':0,'carbs_g':25,'fat_g':0}".

Definition apple_record : value :=
  JObject [(js "name", JString (js "Apple"));
           (js "description", JString (js "A fruit"));
           (js "calories", JNumber (Number.of_Z 95));
           (js "protein_g", JNumber (Number.of_Z 0));
           (js "carbs_g", JNumber (Number.of_Z 25));
           (js "fat_g", JNumber (Number.of_Z 0))].

(** An error response with a reported message. *)
Definition quota_response : Response := {|
  ok := false;
  statusText := js "Too Many Requests";
  json := inr (JObject [(js "error",
                         JObject [(js "message", JString (js "quota exceeded"))])])
|}.

(** A response that is not [ok] and whose body is not JSON: [json()]
    rejects with a SyntaxError. *)
Definition bad_gateway_response : Response :=
  {| ok := false; statusText := js "Bad Gateway"; json := inl SyntaxError |}.

(** A response that is not [ok] and whose body is the JSON text null. *)
Definition null_error_response : Response :=
  {| ok := false; statusText := js "Bad Gateway"; json := inr JNull |}.

(** A response that is [ok] and whose body is not JSON (an empty body, a
    page of a proxy): [json()] rejects with a SyntaxError. *)
Definition undecodable_response : Response :=
  {| ok := true; statusText := js "OK"; json := inl SyntaxError |}.

(** An envelope with several candidates and parts: the text is read off
    the first part of the first candidate. *)
Definition crowded_envelope (text : value) : value :=
  JObject [(js "candidates", JArray [
             JObject [(js "content", JObject [
                        (js "parts", JArray [
                           JObject [(js "text", text)];
                           JObject [(js "text", JString (js "second part"))]]);
                        (js "role", JString (js "model"))]);
                      (js "finishReason", JString (js "STOP"))];
             JObject [(js "content", JObject [
                        (js "parts", JArray [
                           JObject [(js "text", JString (js "second candidate"))]])])]]);
           (js "modelVersion", JString (js "gemini-2.5-flash"))].

(** ** Further notions, for the properties beyond the claims *)

(** One of the awaited host calls of [analyzeImageWithGemini w uri mimeType]
    rejects with [e]: the file read, the request, or [response.json()]. *)
Definition rejected_with (w : World) (uri : jsstring) (mimeType : option jsstring)
           (e : exn) : Prop :=
  file_bytes w uri = inl e
  \/ exists bytes,
       file_bytes w uri = inr bytes
       /\ includes supportedMimeTypes (mime_or_default mimeType) = true
       /\ (fetch w (build_request w (mime_or_default mimeType) (Base64.encode bytes))
           = inl e
           \/ exists response,
                fetch w (build_request w (mime_or_default mimeType) (Base64.encode bytes))
                = inr response
                /\ json response = inl e).

(** The text part of a decoded body: [text_part data (Some text)] when
    [data] is an object whose [candidates] is an array that starts with an
    object, whose [content] is an object, whose [parts] is an array that
    starts with an object, whose [text] is [text]; [text_part data None]
    when the body is null, or the candidates, the content, the parts or the
    text are missing on that path.  Further candidates, parts and
    properties are free. *)
Inductive text_part : value -> option value -> Prop :=
  | text_found (top candidate content part : list (jsstring * value))
               (candidates parts : list value) (text : value) :
      lookup top (js "candidates") = Some (JArray (JObject candidate :: candidates)) ->
      lookup candidate (js "content") = Some (JObject content) ->
      lookup content (js "parts") = Some (JArray (JObject part :: parts)) ->
      lookup part (js "text") = Some text ->
      text_part (JObject top) (Some text)
  | body_null : text_part JNull None
  | no_candidates (top : list (jsstring * value)) :
      lookup top (js "candidates") = None
      \/ lookup top (js "candidates") = Some (JArray []) ->
      text_part (JObject top) None
  | no_content (top candidate : list (jsstring * value)) (candidates : list value) :
      lookup top (js "candidates") = Some (JArray (JObject candidate :: candidates)) ->
      lookup candidate (js "content") = None ->
      text_part (JObject top) None
  | no_parts (top candidate content : list (jsstring * value)) (candidates : list value) :
      lookup top (js "candidates") = Some (JArray (JObject candidate :: candidates)) ->
      lookup candidate (js "content") = Some (JObject content) ->
      lookup content (js "parts") = None
      \/ lookup content (js "parts") = Some (JArray []) ->
      text_part (JObject top) None
  | no_text (top candidate content part : list (jsstring * value))
            (candidates parts : list value) :
      lookup top (js "candidates") = Some (JArray (JObject candidate :: candidates)) ->
      lookup candidate (js "content") = Some (JObject content) ->
      lookup content (js "parts") = Some (JArray (JObject part :: parts)) ->
      lookup part (js "text") = None ->
      text_part (JObject top) None.

Definition backtick : N := 96.

(** A fence marker occurs somewhere in [s]. *)
Fixpoint has_fence (s : jsstring) : bool :=
  match s with
  | [] => false
  | _ :: s' => starts_with fence s || has_fence s'
  end.

(** The keys [ks] are new with respect to [seen] and to each other, and none
    is an array index: [JSON.parse] then appends them in the order in which
    they are written. *)
Fixpoint keys_fresh (seen ks : list jsstring) : bool :=
  match ks with
  | [] => true
  | k :: r =>
      negb (existsb (fun y => JsString.eqb y k) seen)
      && match JSON.array_index k with None => true | Some _ => false end
      && keys_fresh (seen ++ [k]) r
  end.

(** A value without numbers, whose objects have distinct keys that are not
    array indices. *)
Fixpoint plain (v : value) : bool :=
  match v with
  | JNull | JBool _ | JString _ => true
  | JNumber _ => false
  | JArray l =>
      (fix all (l : list value) : bool :=
         match l with
         | [] => true
         | x :: r => plain x && all r
         end) l
  | JObject props =>
      keys_fresh [] (List.map fst props)
      && (fix all (ps : list (jsstring * value)) : bool :=
            match ps with
            | [] => true
            | (_, x) :: r => plain x && all r
            end) props
  end.

(** The texts that [JSON.stringify] writes between the brackets of an array
    and between the braces of an object. *)
Definition items_text : list value -> jsstring :=
  fix items (l : list value) : jsstring :=
    match l with
    | [] => []
    | [x] => JSON.stringify x
    | x :: rest => JSON.stringify x ++ js "," ++ items rest
    end.

Definition members_text : list (jsstring * value) -> jsstring :=
  fix members (ps : list (jsstring * value)) : jsstring :=
    match ps with
    | [] => []
    | [(k, x)] => JSON.quote k ++ js ":" ++ JSON.stringify x
    | (k, x) :: rest => JSON.quote k ++ js ":" ++ JSON.stringify x ++ js "," ++ members rest
    end.

(** The text of the elements of an array after the first one, and of the
    members of an object after the first one. *)
Definition items_tail (l : list value) : jsstring :=
  flat_map (fun y => js "," ++ JSON.stringify y) l.

Definition member_text (p : jsstring * value) : jsstring :=
  JSON.quote (fst p) ++ js ":" ++ JSON.stringify (snd p).

Definition members_tail (ps : list (jsstring * value)) : jsstring :=
  flat_map (fun p => js "," ++ member_text p) ps.

(** ** app/(tabs)/MealRecognition.tsx

    The screen that calls the analyzer.  Its state is the four [useState]
    cells; a handler runs from a state to a state, shows alerts, and calls
    the analyzer and the device. *)

Record Screen : Type := {
  imageUri : option jsstring;      (* [string | null] *)
  mealResult : value;              (* [Meal | null]: what the analyzer returned *)
  isLoading : bool;
  isCameraActive : bool
}.

Definition setImageUri (u : option jsstring) (s : Screen) : Screen :=
  {| imageUri := u; mealResult := mealResult s;
     isLoading := isLoading s; isCameraActive := isCameraActive s |}.

Definition setMealResult (v : value) (s : Screen) : Screen :=
  {| imageUri := imageUri s; mealResult := v;
     isLoading := isLoading s; isCameraActive := isCameraActive s |}.

Definition setIsLoading (b : bool) (s : Screen) : Screen :=
  {| imageUri := imageUri s; mealResult := mealResult s;
     isLoading := b; isCameraActive := isCameraActive s |}.

Definition setIsCameraActive (b : bool) (s : Screen) : Screen :=
  {| imageUri := imageUri s; mealResult := mealResult s;
     isLoading := isLoading s; isCameraActive := b |}.

(** What a handler does besides updating the state: the events of the
    analyzer, and the dialogs of [Alert.alert]. *)
Inductive ui_event : Type :=
  | Host (ev : event)
  | Alert (title message : jsstring).

(** A handler: from a state to the events, the new state, and a value or
    the exception with which its promise rejects. *)
Definition UI (A : Type) : Type := Screen -> (list ui_event * Screen * result A)%type.

Definition ui_ret {A : Type} (x : A) : UI A := fun s => ([], s, inr x).

Definition ui_bind {A B : Type} (m : UI A) (k : A -> UI B) : UI B :=
  fun s =>
    match m s with
    | (t, s1, inl e) => (t, s1, inl e)
    | (t, s1, inr x) => let '(t', s2, r) := k x s1 in (t ++ t', s2, r)
    end.

Notation "x <~ m ;; k" := (ui_bind m (fun x => k))
  (at level 61, m at next level, right associativity).

(** A call of a state setter. *)
Definition update (f : Screen -> Screen) : UI unit := fun s => ([], f s, inr tt).

Definition alert (title message : jsstring) : UI unit :=
  fun s => ([Alert title message], s, inr tt).

(** [await] on a call of the service, and on a call of the device. *)
Definition await {A : Type} (m : M A) : UI A :=
  fun s => (List.map Host (trace m), s, outcome m).

Definition settle {A : Type} (r : result A) : UI A := fun s => ([], s, r).

Definition ui_try_catch {A : Type} (m : UI A) (handler : exn -> UI A) : UI A :=
  fun s =>
    match m s with
    | (t, s1, inl e) => let '(t', s2, r) := handler e s1 in (t ++ t', s2, r)
    | (t, s1, inr x) => (t, s1, inr x)
    end.

Definition ui_finally {A : Type} (m : UI A) (finalizer : UI unit) : UI A :=
  fun s =>
    let '(t, s1, r) := m s in
    let '(t', s2, r') := finalizer s1 in
    (t ++ t', s2, match r' with inl e => inl e | inr _ => r end).

(** [err instanceof Error ? err.message : ...]: every exception of [exn] is
    an instance of Error, so the message shown is [err.message].  The
    message of an [Error] is the one it was made with; the message of an
    exception that the runtime raises is the runtime's, [native err]. *)
Definition errorMessage (native : exn -> jsstring) (err : exn) : jsstring :=
  match err with
  | Error message => message
  | _ => native err
  end.

Definition handleImageAnalysis (native : exn -> jsstring) (w : World)
           (uri : jsstring) (mimeType : option jsstring) : UI unit :=
  _ <~ update (setIsLoading true);;
  _ <~ update (setMealResult JNull);;
  ui_finally
    (ui_try_catch
       (result <~ await (analyzeImageWithGemini w uri mimeType);;
        update (setMealResult result))
       (fun err => alert (js "Analysis Failed") (errorMessage native err)))
    (update (setIsLoading false)).

(** A property that is missing ([undefined]), [null], or a string. *)
Inductive nullable_string : Type :=
  | Undefined
  | Null
  | Str (s : jsstring).

(** What the device answers to the screen.  An asset of the image library
    has a [uri]; its [mimeType] is a string, or [null] or [undefined] when
    the library could not determine it.  The library resolves with no asset
    when the user cancels.  [cameraRef] is the mounted camera, if any, with
    the [uri] of the photo that [takePictureAsync] resolves with. *)
Record Asset : Type := {
  asset_uri : jsstring;
  asset_mimeType : nullable_string
}.

(** The media type that the analyzer works with when it is called with
    [m].  Only [undefined] takes the default of the parameter.  [null] is
    passed on as it is: the test [supportedMimeTypes.includes(null)] fails,
    as null is no element of the list, and the template literal of the
    error prints it as the four letters null.  On both lines null behaves
    as the string null does, which stands for it here; it never reaches a
    request. *)
Definition mime_argument (m : nullable_string) : option jsstring :=
  match m with
  | Undefined => None
  | Null => Some (js "null")
  | Str s => Some s
  end.

Record Device : Type := {
  requestMediaLibraryPermissionsAsync : result bool;
  launchImageLibraryAsync : result (option Asset);
  requestPermission : result bool;
  cameraRef : option (result jsstring)
}.

(** The call of [handleImageAnalysis] is not awaited; it never rejects, and
    nothing follows it in the handler. *)
Definition pickImage (native : exn -> jsstring) (w : World) (d : Device) : UI unit :=
  granted <~ settle (requestMediaLibraryPermissionsAsync d);;
  if negb granted then
    alert (js "Permission Required") (js "Permission to access the gallery is required!")
  else
    result <~ settle (launchImageLibraryAsync d);;
    match result with
    | Some asset =>
        _ <~ update (setImageUri (Some (asset_uri asset)));;
        handleImageAnalysis native w (asset_uri asset)
                            (mime_argument (asset_mimeType asset))
    | None => ui_ret tt
    end.

Definition openCamera (d : Device) : UI unit :=
  granted <~ settle (requestPermission d);;
  if negb granted then
    alert (js "Permission Required") (js "Camera permission is required!")
  else update (setIsCameraActive true).

Definition capturePhoto (native : exn -> jsstring) (w : World) (d : Device) : UI unit :=
  match cameraRef d with
  | Some takePictureAsync =>
      uri <~ settle takePictureAsync;;
      _ <~ update (setIsCameraActive false);;
      _ <~ update (setImageUri (Some uri));;
      handleImageAnalysis native w uri (Some (js "image/jpeg"))
  | None => ui_ret tt
  end.

Definition resetState : UI unit :=
  _ <~ update (setImageUri None);;
  update (setMealResult JNull).

(** What the component renders: the camera, the activity indicator, the
    result (the image at [uri] and the fields read off [meal]), or the two
    buttons. *)
Inductive View : Type :=
  | CameraScreen
  | LoadingView
  | ResultView (uri : jsstring) (meal : value)
  | InitialView.

Definition render (s : Screen) : View :=
  if isCameraActive s then CameraScreen
  else if isLoading s then LoadingView
  else
    match imageUri s with
    | Some (c :: u) =>
        if truthy (Some (mealResult s)) then ResultView (c :: u) (mealResult s)
        else InitialView
    | _ => InitialView
    end.

(** The events, the state and the settlement of a run. *)
Definition ui_events {A : Type} (run : list ui_event * Screen * result A) : list ui_event :=
  fst (fst run).

Definition ui_screen {A : Type} (run : list ui_event * Screen * result A) : Screen :=
  snd (fst run).

Definition ui_outcome {A : Type} (run : list ui_event * Screen * result A) : result A :=
  snd run.

(** The dialogs shown, and the requests submitted, during a run. *)
Definition alerts (t : list ui_event) : list (jsstring * jsstring) :=
  flat_map (fun ev => match ev with Alert title m => [(title, m)] | Host _ => [] end) t.

Definition host_events (t : list ui_event) : list event :=
  flat_map (fun ev => match ev with Host e => [e] | Alert _ _ => [] end) t.

(** The screen when the component mounts. *)
Definition initial_screen : Screen :=
  {| imageUri := None; mealResult := JNull; isLoading := false; isCameraActive := false |}.

Definition no_native : exn -> jsstring := fun _ => js "native error".

(** * Properties *)

(** ** The string built-ins *)

Section StringFacts.

Lemma len_app (a b : jsstring) : len (a ++ b) = len a + len b.
Proof. unfold len. rewrite length_app. lia. Qed.

Lemma len_nonneg (a : jsstring) : 0 <= len a.
Proof. unfold len. lia. Qed.

Lemma starts_with_char (c x : N) (s : jsstring) :
  starts_with [c] (x :: s) = (c =? x)%N.
Proof. simpl. apply andb_true_r. Qed.

Lemma eqb_eq (a b : jsstring) : JsString.eqb a b = true <-> a = b.
Proof.
  revert b. induction a as [|x a IH]; intros [|y b]; cbn [JsString.eqb];
    try (split; [discriminate | discriminate]); [tauto|].
  rewrite andb_true_iff, N.eqb_eq, IH. split.
  - intros [-> ->]. reflexivity.
  - intros H. injection H as -> ->. auto.
Qed.

Lemma includes_In (l : list jsstring) (x : jsstring) :
  includes l x = true <-> In x l.
Proof.
  unfold includes. rewrite existsb_exists. split.
  - intros (y & Hy & Heq). apply eqb_eq in Heq. now subst.
  - intros Hin. exists x. split; [exact Hin | now apply eqb_eq].
Qed.

Lemma first_occurrence (c : N) (s : jsstring) :
  In c s -> exists pre rest, s = pre ++ c :: rest /\ ~ In c pre.
Proof.
  induction s as [|x s IH]; intros Hin; [destruct Hin|].
  destruct (N.eq_dec x c) as [->|Hne].
  - exists [], s. split; [reflexivity | intros []].
  - destruct Hin as [Heq|Hin]; [contradiction|].
    destruct (IH Hin) as (pre & rest & -> & Hpre).
    exists (x :: pre), rest. split; [reflexivity|].
    intros [Heq|Hin']; [contradiction | exact (Hpre Hin')].
Qed.

Lemma last_occurrence (c : N) (s : jsstring) :
  In c s -> exists pre post, s = pre ++ c :: post /\ ~ In c post.
Proof.
  intros Hin. apply in_rev in Hin.
  destruct (first_occurrence c (rev s) Hin) as (p & r & Heq & Hp).
  exists (rev r), (rev p). split.
  - rewrite <- (rev_involutive s), Heq, rev_app_distr. simpl.
    now rewrite <- app_assoc.
  - intros H. apply Hp. now apply in_rev.
Qed.

Lemma indexOf_from_first (c : N) (pre rest : jsstring) (i : Z) :
  ~ In c pre -> indexOf_from [c] (pre ++ c :: rest) i = i + len pre.
Proof.
  revert i. induction pre as [|x pre IH]; intros i Hpre.
  - cbn [app indexOf_from]. rewrite starts_with_char, N.eqb_refl.
    unfold len. simpl. lia.
  - cbn [app indexOf_from]. rewrite starts_with_char.
    destruct (N.eqb_spec c x) as [->|Hne]; [exfalso; apply Hpre; now left|].
    rewrite IH by (intros H; apply Hpre; now right).
    unfold len. cbn [List.length]. lia.
Qed.

Lemma indexOf_first (c : N) (pre rest : jsstring) :
  ~ In c pre -> indexOf (pre ++ c :: rest) [c] = len pre.
Proof. intros H. unfold indexOf. now rewrite indexOf_from_first. Qed.

Lemma indexOf_from_absent (c : N) (s : jsstring) (i : Z) :
  ~ In c s -> indexOf_from [c] s i = -1.
Proof.
  revert i. induction s as [|x s IH]; intros i Hs; [reflexivity|].
  cbn [indexOf_from]. rewrite starts_with_char.
  destruct (N.eqb_spec c x) as [->|Hne]; [exfalso; apply Hs; now left|].
  apply IH. intros H. apply Hs. now right.
Qed.

Lemma indexOf_absent (c : N) (s : jsstring) :
  ~ In c s -> indexOf s [c] = -1.
Proof. apply indexOf_from_absent. Qed.

Lemma lastIndexOf_absent (c : N) (s : jsstring) :
  ~ In c s -> lastIndexOf s [c] = -1.
Proof.
  induction s as [|x s IH]; intros Hs; [reflexivity|].
  cbn [lastIndexOf]. rewrite IH by (intros H; apply Hs; now right).
  cbn [Z.leb Z.compare]. rewrite starts_with_char.
  destruct (N.eqb_spec c x) as [->|Hne]; [exfalso; apply Hs; now left|reflexivity].
Qed.

Lemma lastIndexOf_last (c : N) (pre post : jsstring) :
  ~ In c post -> lastIndexOf (pre ++ c :: post) [c] = len pre.
Proof.
  intros Hpost. induction pre as [|x pre IH].
  - cbn [app lastIndexOf]. rewrite lastIndexOf_absent by assumption.
    cbn [Z.leb Z.compare]. now rewrite starts_with_char, N.eqb_refl.
  - cbn [app lastIndexOf]. rewrite IH.
    pose proof (len_nonneg pre) as Hn.
    destruct (Z.leb_spec 0 (len pre)); [|lia].
    unfold len. cbn [List.length]. lia.
Qed.



Lemma clamp_inside (i n : Z) : 0 <= i <= n -> clamp i n = i.
Proof. unfold clamp. lia. Qed.

Lemma substring_middle (pre mid post : jsstring) :
  substring (pre ++ mid ++ post) (len pre) (len pre + len mid) = mid.
Proof.
  unfold substring.
  pose proof (len_nonneg pre). pose proof (len_nonneg mid). pose proof (len_nonneg post).
  rewrite !clamp_inside by (rewrite !len_app; lia).
  rewrite Z.min_l, Z.max_r by lia.
  replace (len pre + len mid - len pre) with (len mid) by lia.
  unfold len. rewrite !Nat2Z.id.
  rewrite skipn_app, skipn_all, Nat.sub_diag. cbn [skipn app].
  rewrite firstn_app, firstn_all, Nat.sub_diag. cbn [firstn]. apply app_nil_r.
Qed.



Lemma trim_start_prefix (s : jsstring) :
  exists w, s = w ++ trim_start s /\ spaces w.
Proof.
  induction s as [|c s (w & Hs & Hw)].
  - exists []. split; [reflexivity | constructor].
  - cbn [trim_start]. destruct (is_js_space c) eqn:Hc.
    + exists (c :: w). split; [cbn; now rewrite <- Hs | now constructor].
    + exists []. split; [reflexivity | constructor].
Qed.

Lemma trim_end_suffix (s : jsstring) :
  exists w, s = trim_end s ++ w /\ spaces w.
Proof.
  unfold trim_end.
  destruct (trim_start_prefix (rev s)) as (w & Hs & Hw).
  exists (rev w). split.
  - rewrite <- (rev_involutive s) at 1. rewrite Hs at 1. apply rev_app_distr.
  - apply Forall_rev. exact Hw.
Qed.

Lemma trim_split (s : jsstring) :
  exists w1 w2, s = w1 ++ trim s ++ w2 /\ spaces w1 /\ spaces w2.
Proof.
  destruct (trim_start_prefix s) as (w1 & H1 & Hw1).
  destruct (trim_end_suffix (trim_start s)) as (w2 & H2 & Hw2).
  exists w1, w2. unfold trim. rewrite <- H2. auto.
Qed.

Lemma trim_start_app (pre : jsstring) (c : N) (rest : jsstring) :
  is_js_space c = false ->
  exists pre', trim_start (pre ++ c :: rest) = pre' ++ c :: rest /\ incl pre' pre.
Proof.
  intros Hc. induction pre as [|x pre (pre' & Heq & Hincl)].
  - exists []. cbn. rewrite Hc. split; [reflexivity | apply incl_refl].
  - cbn [app trim_start]. destruct (is_js_space x).
    + exists pre'. split; [exact Heq | now apply incl_tl].
    + exists (x :: pre). split; [reflexivity | apply incl_refl].
Qed.

Lemma trim_end_app (pre : jsstring) (d : N) (post : jsstring) :
  is_js_space d = false ->
  exists post', trim_end (pre ++ d :: post) = pre ++ d :: post' /\ incl post' post.
Proof.
  intros Hd. unfold trim_end.
  rewrite rev_app_distr. cbn [rev]. rewrite <- app_assoc. cbn [app].
  destruct (trim_start_app (rev post) d (rev pre) Hd) as (p & Heq & Hincl).
  exists (rev p). split.
  - rewrite Heq, rev_app_distr. cbn [rev]. rewrite rev_involutive.
    now rewrite <- app_assoc.
  - intros x Hx. apply in_rev in Hx. apply Hincl in Hx. now apply in_rev.
Qed.

End StringFacts.

(** ** The slice between the braces *)

Section SliceFacts.

Lemma from_first_app (c : N) (pre rest : jsstring) :
  ~ In c pre -> from_first c (pre ++ c :: rest) = c :: rest.
Proof.
  induction pre as [|x pre IH]; intros Hpre; cbn [app from_first].
  - now rewrite N.eqb_refl.
  - destruct (N.eqb_spec x c) as [->|Hne]; [exfalso; apply Hpre; now left|].
    apply IH. intros H. apply Hpre. now right.
Qed.

Lemma from_first_absent (c : N) (s : jsstring) : ~ In c s -> from_first c s = [].
Proof.
  induction s as [|x s IH]; intros Hs; [reflexivity|]. cbn [from_first].
  destruct (N.eqb_spec x c) as [->|Hne]; [exfalso; apply Hs; now left|].
  apply IH. intros H. apply Hs. now right.
Qed.

Lemma upto_last_app (c : N) (pre post : jsstring) :
  ~ In c post -> upto_last c (pre ++ c :: post) = pre ++ [c].
Proof.
  intros Hpost. unfold upto_last.
  rewrite rev_app_distr. cbn [rev]. rewrite <- app_assoc. cbn [app].
  rewrite from_first_app by (intros H; apply Hpost; now apply in_rev).
  cbn [rev]. now rewrite rev_involutive.
Qed.

Lemma upto_last_absent (c : N) (s : jsstring) : ~ In c s -> upto_last c s = [].
Proof.
  intros Hs. unfold upto_last.
  rewrite from_first_absent; [reflexivity|]. intros H. apply Hs. now apply in_rev.
Qed.


(** The slice of a text whose cleaned form has an opening brace before its
    last closing brace. *)
Lemma json_slice_span (s pre mid post : jsstring) :
  strip_fences s = pre ++ lbrace :: mid ++ rbrace :: post ->
  ~ In lbrace pre -> ~ In rbrace post ->
  json_slice s = lbrace :: mid ++ [rbrace].
Proof.
  intros Hs Hpre Hpost. unfold json_slice. rewrite Hs. unfold trim.
  destruct (trim_start_app pre lbrace (mid ++ rbrace :: post) eq_refl)
    as (pre' & -> & Hpre').
  replace (pre' ++ lbrace :: mid ++ rbrace :: post)
    with ((pre' ++ lbrace :: mid) ++ rbrace :: post)
    by (now rewrite <- app_assoc).
  destruct (trim_end_app (pre' ++ lbrace :: mid) rbrace post eq_refl)
    as (post' & -> & Hpost').
  change (js "}") with [rbrace]. change (js "{") with [lbrace].
  rewrite lastIndexOf_last by (intros H; apply Hpost; now apply Hpost').
  rewrite <- app_assoc. cbn [app].
  rewrite indexOf_first by (intros H; apply Hpre; now apply Hpre').
  replace (pre' ++ lbrace :: mid ++ rbrace :: post')
    with (pre' ++ (lbrace :: mid ++ [rbrace]) ++ post')
    by (cbn [app]; now rewrite <- app_assoc).
  replace (len (pre' ++ lbrace :: mid) + 1)
    with (len pre' + len (lbrace :: mid ++ [rbrace])).
  - apply substring_middle.
  - rewrite len_app. unfold len. cbn [List.length]. rewrite length_app.
    cbn [List.length]. lia.
Qed.


(** A text whose cleaned form has no brace at all gives the empty slice. *)
Lemma json_slice_no_brace (s : jsstring) :
  brace_free (strip_fences s) -> json_slice s = [].
Proof.
  intros [Hl Hr]. unfold json_slice.
  destruct (trim_split (strip_fences s)) as (w1 & w2 & Hx & _ & _).
  set (c := trim (strip_fences s)) in *.
  change (js "}") with [rbrace]. change (js "{") with [lbrace].
  rewrite indexOf_absent, lastIndexOf_absent.
  - unfold substring, clamp. pose proof (len_nonneg c).
    replace (Z.min (Z.max (-1) 0) (len c)) with 0 by lia.
    replace (Z.min (Z.max (-1 + 1) 0) (len c)) with 0 by lia.
    reflexivity.
  - intros H. apply Hr. rewrite Hx. apply in_or_app. right. apply in_or_app. now left.
  - intros H. apply Hl. rewrite Hx. apply in_or_app. right. apply in_or_app. now left.
Qed.

(** The code takes the payload the specification describes whenever that
    payload exists. *)
Lemma json_slice_spec_payload (s : jsstring) :
  spec_payload (strip_fences s) <> [] ->
  json_slice s = spec_payload (strip_fences s).
Proof.
  unfold spec_payload. intros Hne.
  destruct (in_dec N.eq_dec lbrace (strip_fences s)) as [Hl|Hl];
    [|rewrite (from_first_absent _ _ Hl) in Hne; now contradiction Hne].
  destruct (first_occurrence lbrace _ Hl) as (pre & r & Hx & Hpre).
  rewrite Hx in *. rewrite from_first_app in * by assumption.
  destruct (in_dec N.eq_dec rbrace (lbrace :: r)) as [Hr|Hr];
    [|rewrite (upto_last_absent _ _ Hr) in Hne; now contradiction Hne].
  destruct Hr as [Heq|Hr]; [discriminate Heq|].
  destruct (last_occurrence rbrace r Hr) as (mid & post & -> & Hpost).
  rewrite (json_slice_span s pre mid post Hx Hpre Hpost).
  change (lbrace :: mid ++ rbrace :: post) with ((lbrace :: mid) ++ rbrace :: post).
  now rewrite upto_last_app.
Qed.

End SliceFacts.

(** ** Fence stripping *)

Section FenceFacts.



Lemma starts_with_length (p a : jsstring) :
  starts_with p a = true -> (List.length p <= List.length a)%nat.
Proof.
  revert a. induction p as [|y p IH]; intros a H; cbn [List.length]; [lia|].
  destruct a as [|z a]; [discriminate H|].
  cbn [starts_with] in H. apply andb_prop in H. destruct H as [_ H].
  apply IH in H. cbn [List.length]. lia.
Qed.




End FenceFacts.

(** ** The parser *)

Section ParserFacts.






(** *** The fuel of the parser is enough *)

Lemma skip_ws_length (s : jsstring) : (List.length (JSON.skip_ws s) <= List.length s)%nat.
Proof.
  induction s as [|c s IH]; [apply le_n|].
  cbn [JSON.skip_ws]. destruct (JSON.is_ws c); cbn [List.length]; lia.
Qed.

Lemma skip_ws_cons (s : jsstring) (c : N) (r : jsstring) :
  JSON.skip_ws s = c :: r -> (List.length r < List.length s)%nat.
Proof.
  intros H. pose proof (skip_ws_length s) as Hl. rewrite H in Hl.
  cbn [List.length] in Hl. lia.
Qed.

Lemma parse_chars_length (n : nat) :
  forall s str rest,
    (List.length s <= n)%nat ->
    JSON.parse_chars s = Some (str, rest) -> (List.length rest < List.length s)%nat.
Proof.
  induction n as [|n IH]; intros s str rest Hn H.
  - destruct s; [discriminate H | cbn [List.length] in Hn; lia].
  - destruct s as [|c r]; [discriminate H|]. cbn [List.length] in Hn.
    cbn [JSON.parse_chars] in H.
    destruct (c =? 34)%N.
    { injection H as _ <-. cbn [List.length]. lia. }
    destruct (c =? 92)%N.
    { destruct r as [|e r1]; [discriminate H|].
      destruct (e =? 117)%N.
      - destruct r1 as [|h1 [|h2 [|h3 [|h4 r2]]]]; try discriminate H.
        destruct (JSON.hex_digit h1), (JSON.hex_digit h2),
          (JSON.hex_digit h3), (JSON.hex_digit h4); try discriminate H.
        destruct (JSON.parse_chars r2) as [[str' rest']|] eqn:E; [|discriminate H].
        injection H as _ <-. apply IH in E; cbn [List.length] in *; lia.
      - destruct (JSON.escape e); [|discriminate H].
        destruct (JSON.parse_chars r1) as [[str' rest']|] eqn:E; [|discriminate H].
        injection H as _ <-. apply IH in E; cbn [List.length] in *; lia. }
    destruct (c <? 32)%N; [discriminate H|].
    destruct (JSON.parse_chars r) as [[str' rest']|] eqn:E; [|discriminate H].
    injection H as _ <-. apply IH in E; cbn [List.length] in *; lia.
Qed.

Lemma take_digits_length (s ds rest : jsstring) :
  JSON.take_digits s = (ds, rest) -> (List.length rest <= List.length s)%nat.
Proof.
  revert ds rest. induction s as [|c s IH]; intros ds rest H.
  - injection H as _ <-. apply le_n.
  - cbn [JSON.take_digits] in H. destruct (JSON.is_digit c).
    + destruct (JSON.take_digits s) as [ds' rest'] eqn:E.
      injection H as _ <-. specialize (IH _ _ eq_refl). cbn [List.length]. lia.
    + injection H as _ <-. apply le_n.
Qed.

Lemma parse_sign_length (s : jsstring) (neg : bool) (rest : jsstring) :
  JSON.parse_sign s = (neg, rest) -> (List.length rest <= List.length s)%nat.
Proof.
  unfold JSON.parse_sign. destruct s as [|c r]; intros H.
  - injection H as _ <-. apply le_n.
  - destruct (c =? 45)%N; injection H as _ <-; cbn [List.length]; lia.
Qed.

Lemma parse_int_length (s ds rest : jsstring) :
  JSON.parse_int s = Some (ds, rest) -> (List.length rest < List.length s)%nat.
Proof.
  unfold JSON.parse_int. destruct s as [|c r]; intros H; [discriminate H|].
  destruct (c =? 48)%N.
  - injection H as _ <-. cbn [List.length]. lia.
  - destruct (JSON.is_digit c) eqn:Hc; [|discriminate H].
    cbn [JSON.take_digits] in H. rewrite Hc in H.
    destruct (JSON.take_digits r) as [ds' rest'] eqn:E.
    injection H as _ <-. apply take_digits_length in E.
    cbn [List.length]. lia.
Qed.

Lemma parse_frac_length (s ds rest : jsstring) :
  JSON.parse_frac s = Some (ds, rest) -> (List.length rest <= List.length s)%nat.
Proof.
  unfold JSON.parse_frac. destruct s as [|c r]; intros H.
  - injection H as _ <-. apply le_n.
  - destruct (c =? 46)%N.
    + destruct (JSON.take_digits r) as [[|d ds'] rest'] eqn:E; [discriminate H|].
      injection H as _ <-. apply take_digits_length in E.
      cbn [List.length]. lia.
    + injection H as _ <-. apply le_n.
Qed.

Lemma parse_exp_sign_length (s : jsstring) (neg : bool) (rest : jsstring) :
  JSON.parse_exp_sign s = (neg, rest) -> (List.length rest <= List.length s)%nat.
Proof.
  unfold JSON.parse_exp_sign. destruct s as [|c r]; intros H.
  - injection H as _ <-. apply le_n.
  - destruct (c =? 45)%N; [injection H as _ <-; cbn [List.length]; lia|].
    destruct (c =? 43)%N; injection H as _ <-; cbn [List.length]; lia.
Qed.

Lemma parse_exp_length (s : jsstring) (e : Z) (rest : jsstring) :
  JSON.parse_exp s = Some (e, rest) -> (List.length rest <= List.length s)%nat.
Proof.
  unfold JSON.parse_exp. destruct s as [|c r]; intros H.
  - injection H as _ <-. apply le_n.
  - destruct ((c =? 101) || (c =? 69))%N.
    + destruct (JSON.parse_exp_sign r) as [eneg r1] eqn:Es.
      apply parse_exp_sign_length in Es.
      destruct (JSON.take_digits r1) as [[|d ds'] rest'] eqn:E; [discriminate H|].
      injection H as _ <-. apply take_digits_length in E.
      cbn [List.length]. lia.
    + injection H as _ <-. apply le_n.
Qed.

Lemma parse_number_length (s : jsstring) (n : Number.number) (rest : jsstring) :
  JSON.parse_number s = Some (n, rest) -> (List.length rest < List.length s)%nat.
Proof.
  unfold JSON.parse_number. intros H.
  destruct (JSON.parse_sign s) as [neg s1] eqn:E1. apply parse_sign_length in E1.
  destruct (JSON.parse_int s1) as [[ids s2]|] eqn:E2; [|discriminate H].
  apply parse_int_length in E2.
  destruct (JSON.parse_frac s2) as [[fds s3]|] eqn:E3; [|discriminate H].
  apply parse_frac_length in E3.
  destruct (JSON.parse_exp s3) as [[e s4]|] eqn:E4; [|discriminate H].
  apply parse_exp_length in E4.
  injection H as _ <-. lia.
Qed.

Lemma literal_length (word : jsstring) (v0 : value) (s : jsstring)
      (v : value) (rest : jsstring) :
  word <> [] ->
  JSON.literal word v0 s = Some (v, rest) -> (List.length rest < List.length s)%nat.
Proof.
  unfold JSON.literal. intros Hw H.
  destruct (starts_with word s) eqn:E; [|discriminate H].
  injection H as _ <-. apply starts_with_length in E.
  rewrite length_skipn. destruct word; [contradiction|]. cbn [List.length] in *. lia.
Qed.

Lemma parse_member_length (parse : jsstring -> option (value * jsstring))
      (s k : jsstring) (v : value) (rest : jsstring) :
  consuming parse ->
  JSON.parse_member parse s = Some (k, v, rest) -> (List.length rest < List.length s)%nat.
Proof.
  intros Hparse H. unfold JSON.parse_member in H.
  destruct (JSON.skip_ws s) as [|c r] eqn:Es; [discriminate H|].
  apply skip_ws_cons in Es.
  destruct (c =? 34)%N; [|discriminate H].
  destruct (JSON.parse_chars r) as [[k' r1]|] eqn:Ek; [|discriminate H].
  apply (parse_chars_length _ _ _ _ (le_n _)) in Ek.
  destruct (JSON.skip_ws r1) as [|c1 r2] eqn:Es1; [discriminate H|].
  apply skip_ws_cons in Es1.
  destruct (c1 =? 58)%N; [|discriminate H].
  destruct (parse r2) as [[v' r3]|] eqn:Ev; [|discriminate H].
  apply Hparse in Ev. injection H as _ _ <-. lia.
Qed.

Lemma parse_length (fuel : nat) :
  consuming (JSON.parse_value fuel)
  /\ (forall acc, consuming (JSON.parse_members fuel acc))
  /\ (forall acc, consuming (JSON.parse_elements fuel acc)).
Proof.
  induction fuel as [|f (IHv & IHm & IHe)].
  - repeat split; intros; intros s v rest H; discriminate H.
  - split; [|split].
    + intros s v rest H. cbn [JSON.parse_value] in H.
      destruct (JSON.skip_ws s) as [|c r] eqn:Es; [discriminate H|].
      apply skip_ws_cons in Es.
      destruct (c =? 123)%N.
      { destruct (JSON.skip_ws r) as [|c1 r1] eqn:Es1; [discriminate H|].
        apply skip_ws_cons in Es1.
        destruct (c1 =? 125)%N; [injection H as _ <-; lia|].
        destruct (JSON.parse_member (JSON.parse_value f) r) as [[[k v'] r2]|] eqn:Em;
          [|discriminate H].
        apply (parse_member_length _ _ _ _ _ IHv) in Em.
        apply IHm in H. lia. }
      destruct (c =? 91)%N.
      { destruct (JSON.skip_ws r) as [|c1 r1] eqn:Es1; [discriminate H|].
        apply skip_ws_cons in Es1.
        destruct (c1 =? 93)%N; [injection H as _ <-; lia|].
        destruct (JSON.parse_value f r) as [[v' r2]|] eqn:Ev; [|discriminate H].
        apply IHv in Ev. apply IHe in H. lia. }
      destruct (c =? 34)%N.
      { destruct (JSON.parse_chars r) as [[str rest']|] eqn:Ek; [|discriminate H].
        apply (parse_chars_length _ _ _ _ (le_n _)) in Ek.
        injection H as _ <-. lia. }
      assert (Hc : (List.length (c :: r) <= List.length s)%nat) by (cbn [List.length]; lia).
      destruct (c =? 116)%N; [apply literal_length in H; [lia | discriminate]|].
      destruct (c =? 102)%N; [apply literal_length in H; [lia | discriminate]|].
      destruct (c =? 110)%N; [apply literal_length in H; [lia | discriminate]|].
      destruct (JSON.parse_number (c :: r)) as [[n rest']|] eqn:En; [|discriminate H].
      apply parse_number_length in En. injection H as _ <-. lia.
    + intros acc s v rest H. cbn [JSON.parse_members] in H.
      destruct (JSON.skip_ws s) as [|c r] eqn:Es; [discriminate H|].
      apply skip_ws_cons in Es.
      destruct (c =? 125)%N; [injection H as _ <-; lia|].
      destruct (c =? 44)%N; [|discriminate H].
      destruct (JSON.parse_member (JSON.parse_value f) r) as [[[k v'] r1]|] eqn:Em;
        [|discriminate H].
      apply (parse_member_length _ _ _ _ _ IHv) in Em.
      apply IHm in H. lia.
    + intros acc s v rest H. cbn [JSON.parse_elements] in H.
      destruct (JSON.skip_ws s) as [|c r] eqn:Es; [discriminate H|].
      apply skip_ws_cons in Es.
      destruct (c =? 93)%N; [injection H as _ <-; lia|].
      destruct (c =? 44)%N; [|discriminate H].
      destruct (JSON.parse_value f r) as [[v' r1]|] eqn:Ev; [|discriminate H].
      apply IHv in Ev. apply IHe in H. lia.
Qed.

Lemma parse_member_ext (p1 p2 : jsstring -> option (value * jsstring)) (s : jsstring) :
  (forall x, (List.length x < List.length s)%nat -> p1 x = p2 x) ->
  JSON.parse_member p1 s = JSON.parse_member p2 s.
Proof.
  intros Hext. unfold JSON.parse_member.
  destruct (JSON.skip_ws s) as [|c r] eqn:Es; [reflexivity|].
  apply skip_ws_cons in Es.
  destruct (c =? 34)%N; [|reflexivity].
  destruct (JSON.parse_chars r) as [[k r1]|] eqn:Ek; [|reflexivity].
  apply (parse_chars_length _ _ _ _ (le_n _)) in Ek.
  destruct (JSON.skip_ws r1) as [|c1 r2] eqn:Es1; [reflexivity|].
  apply skip_ws_cons in Es1.
  destruct (c1 =? 58)%N; [|reflexivity].
  rewrite Hext by lia. reflexivity.
Qed.

(** Above the length of the input the fuel does not matter. *)
Lemma parse_fuel (f : nat) :
  forall f',
    (forall s, (List.length s < f)%nat -> (List.length s < f')%nat ->
               JSON.parse_value f s = JSON.parse_value f' s)
    /\ (forall acc s, (List.length s < f)%nat -> (List.length s < f')%nat ->
                      JSON.parse_members f acc s = JSON.parse_members f' acc s)
    /\ (forall acc s, (List.length s < f)%nat -> (List.length s < f')%nat ->
                      JSON.parse_elements f acc s = JSON.parse_elements f' acc s).
Proof.
  induction f as [|f IH]; intros f'.
  - repeat split; intros; lia.
  - destruct f' as [|f']; [repeat split; intros; lia|].
    destruct (IH f') as (IHv & IHm & IHe).
    destruct (parse_length f) as (Lv & Lm & Le).
    split; [|split].
    + intros s Hf Hf'. cbn [JSON.parse_value].
      destruct (JSON.skip_ws s) as [|c r] eqn:Es; [reflexivity|].
      apply skip_ws_cons in Es.
      destruct (c =? 123)%N.
      { destruct (JSON.skip_ws r) as [|c1 r1] eqn:Es1; [reflexivity|].
        destruct (c1 =? 125)%N; [reflexivity|].
        rewrite (parse_member_ext (JSON.parse_value f) (JSON.parse_value f') r)
          by (intros x Hx; apply IHv; lia).
        destruct (JSON.parse_member (JSON.parse_value f') r) as [[[k v] r2]|] eqn:Em;
          [|reflexivity].
        rewrite <- (parse_member_ext (JSON.parse_value f) (JSON.parse_value f') r) in Em
          by (intros x Hx; apply IHv; lia).
        apply (parse_member_length _ _ _ _ _ Lv) in Em.
        apply IHm; lia. }
      destruct (c =? 91)%N; [|reflexivity].
      destruct (JSON.skip_ws r) as [|c1 r1] eqn:Es1; [reflexivity|].
      destruct (c1 =? 93)%N; [reflexivity|].
      rewrite <- (IHv r) by lia.
      destruct (JSON.parse_value f r) as [[v r2]|] eqn:Ev; [|reflexivity].
      apply Lv in Ev. apply IHe; lia.
    + intros acc s Hf Hf'. cbn [JSON.parse_members].
      destruct (JSON.skip_ws s) as [|c r] eqn:Es; [reflexivity|].
      apply skip_ws_cons in Es.
      destruct (c =? 125)%N; [reflexivity|].
      destruct (c =? 44)%N; [|reflexivity].
      rewrite (parse_member_ext (JSON.parse_value f) (JSON.parse_value f') r)
        by (intros x Hx; apply IHv; lia).
      destruct (JSON.parse_member (JSON.parse_value f') r) as [[[k v] r1]|] eqn:Em;
        [|reflexivity].
      rewrite <- (parse_member_ext (JSON.parse_value f) (JSON.parse_value f') r) in Em
        by (intros x Hx; apply IHv; lia).
      apply (parse_member_length _ _ _ _ _ Lv) in Em.
      apply IHm; lia.
    + intros acc s Hf Hf'. cbn [JSON.parse_elements].
      destruct (JSON.skip_ws s) as [|c r] eqn:Es; [reflexivity|].
      apply skip_ws_cons in Es.
      destruct (c =? 93)%N; [reflexivity|].
      destruct (c =? 44)%N; [|reflexivity].
      rewrite <- (IHv r) by lia.
      destruct (JSON.parse_value f r) as [[v r1]|] eqn:Ev; [|reflexivity].
      apply Lv in Ev. apply IHe; lia.
Qed.

(** The fuel that [JSON.parse] gives is enough: more fuel gives the same
    result. *)
Lemma parse_value_fuel_enough (s : jsstring) (fuel : nat) :
  (List.length s < fuel)%nat ->
  JSON.parse_value fuel s = JSON.parse_value (S (List.length s)) s.
Proof.
  intros H. apply (proj1 (parse_fuel fuel (S (List.length s)))); lia.
Qed.

Lemma parse_empty : JSON.parse [] = inl SyntaxError.
Proof. reflexivity. Qed.

End ParserFacts.

(** ** The control flow of the analyzer *)

Section Flow.

Variable w : World.
Variable uri : jsstring.
Variable mimeType : option jsstring.

Lemma try_catch_rethrow {A : Type} (m : M A) : try_catch m (fun e => throw e) = m.
Proof.
  destruct m as [t [e|x]]; cbn; [|reflexivity]. now rewrite app_nil_r.
Qed.

(** The file cannot be read: the rejection of the read is the failure. *)
Lemma analyze_unreadable (e : exn) :
  file_bytes w uri = inl e ->
  analyzeImageWithGemini w uri mimeType = ([FileRead uri], inl e).
Proof.
  intros Hread. unfold analyzeImageWithGemini. rewrite try_catch_rethrow.
  unfold bind, emit, lift. now rewrite Hread.
Qed.

(** The file is read, the media type is not in the list. *)
Lemma analyze_unsupported (bytes : list byte) :
  file_bytes w uri = inr bytes ->
  includes supportedMimeTypes (mime_or_default mimeType) = false ->
  analyzeImageWithGemini w uri mimeType
  = ([FileRead uri], inl (UnsupportedFormat (mime_or_default mimeType))).
Proof.
  intros Hread Hmime. unfold analyzeImageWithGemini. rewrite try_catch_rethrow.
  unfold bind, emit, lift. rewrite Hread, Hmime. reflexivity.
Qed.

(** The request is submitted and rejected by the network. *)
Lemma analyze_rejected (bytes : list byte) (e : exn) :
  file_bytes w uri = inr bytes ->
  includes supportedMimeTypes (mime_or_default mimeType) = true ->
  fetch w (build_request w (mime_or_default mimeType) (Base64.encode bytes)) = inl e ->
  analyzeImageWithGemini w uri mimeType
  = ([FileRead uri;
      Fetch (build_request w (mime_or_default mimeType) (Base64.encode bytes))],
     inl e).
Proof.
  intros Hread Hmime Hfetch. unfold analyzeImageWithGemini. rewrite try_catch_rethrow.
  unfold bind, emit, lift. rewrite Hread, Hmime. cbn [negb]. now rewrite Hfetch.
Qed.

(** The request is submitted and answered. *)
Lemma analyze_answered (bytes : list byte) (response : Response) :
  file_bytes w uri = inr bytes ->
  includes supportedMimeTypes (mime_or_default mimeType) = true ->
  fetch w (build_request w (mime_or_default mimeType) (Base64.encode bytes)) = inr response ->
  analyzeImageWithGemini w uri mimeType
  = ([FileRead uri;
      Fetch (build_request w (mime_or_default mimeType) (Base64.encode bytes))]
     ++ trace (handle_response response),
     outcome (handle_response response)).
Proof.
  intros Hread Hmime Hfetch. unfold analyzeImageWithGemini. rewrite try_catch_rethrow.
  unfold bind, emit, lift. rewrite Hread, Hmime. cbn [negb]. rewrite Hfetch.
  destruct (handle_response response) as [t r]. reflexivity.
Qed.

End Flow.

Lemma outcome_answered (w : World) (uri : jsstring) (mimeType : option jsstring)
      (response : Response) :
  answered w uri mimeType response ->
  outcome (analyzeImageWithGemini w uri mimeType) = outcome (handle_response response).
Proof.
  intros (bytes & Hread & Hmime & Hfetch).
  now rewrite (analyze_answered w uri mimeType bytes response Hread Hmime Hfetch).
Qed.

Lemma read_reply_outcome (response : Response) (data : value) :
  json response = inr data ->
  outcome (read_reply response) = reply_outcome (first_text data).
Proof.
  intros Hjson. unfold read_reply, bind, lift. rewrite Hjson.
  destruct (first_text data) as [t|]; [|reflexivity].
  cbn [reply_outcome]. destruct (truthy (Some t)); [|reflexivity].
  cbn [negb]. unfold try_catch, lift. now destruct (extract t).
Qed.

Lemma ok_outcome (w : World) (uri : jsstring) (mimeType : option jsstring)
      (response : Response) (data : value) :
  answered w uri mimeType response ->
  ok response = true ->
  json response = inr data ->
  outcome (analyzeImageWithGemini w uri mimeType) = reply_outcome (first_text data).
Proof.
  intros Hans Hok Hjson. rewrite (outcome_answered _ _ _ _ Hans).
  unfold handle_response. rewrite Hok. cbn [negb].
  now apply read_reply_outcome.
Qed.

(** After the request, the analyzer only writes to the console. *)
Lemma handle_response_requests (response : Response) :
  requests (trace (handle_response response)) = [].
Proof.
  unfold handle_response, upstream_failure, read_reply, bind, lift.
  destruct (ok response); cbn [negb].
  - destruct (json response) as [e|data]; [reflexivity|].
    destruct (first_text data) as [t|]; [|reflexivity].
    destruct (truthy (Some t)); [|reflexivity].
    cbn [negb]. unfold try_catch, lift. now destruct (extract t).
  - destruct (json response) as [e|errorData]; [reflexivity|].
    destruct (error_message errorData) as [e|message]; [reflexivity|].
    now destruct (to_string _).
Qed.

Lemma extract_apple : extract (JString apple_text) = inr apple_record.
Proof. vm_compute. reflexivity. Qed.

(** The record of the apple has the property [name]; the field [meal_name]
    of the interface [Meal] is undefined in it. *)
Example apple_record_meal_name : meal_name (as_Meal apple_record) = None.
Proof. reflexivity. Qed.

(** An invocation submits at most one request. *)
Lemma at_most_one_request (w : World) (uri : jsstring) (mimeType : option jsstring) :
  (List.length (requests (trace (analyzeImageWithGemini w uri mimeType))) <= 1)%nat.
Proof.
  destruct (file_bytes w uri) as [e|bytes] eqn:Hread.
  { rewrite (analyze_unreadable w uri mimeType e Hread). cbn. lia. }
  destruct (includes supportedMimeTypes (mime_or_default mimeType)) eqn:Hmime.
  2:{ rewrite (analyze_unsupported w uri mimeType bytes Hread Hmime). cbn. lia. }
  destruct (fetch w (build_request w (mime_or_default mimeType) (Base64.encode bytes)))
    as [e|response] eqn:Hfetch.
  { rewrite (analyze_rejected w uri mimeType bytes e Hread Hmime Hfetch). cbn. lia. }
  rewrite (analyze_answered w uri mimeType bytes response Hread Hmime Hfetch).
  cbn [trace fst]. unfold requests. rewrite flat_map_app.
  fold (requests (trace (handle_response response))).
  rewrite handle_response_requests. cbn. lia.
Qed.

(** * The claims *)

(** C1: when the upstream call succeeds and the extracted text part is
    exactly [apple_text], the JSON object with name Apple, description
    A fruit, calories 95, protein_g 0, carbs_g 25 and fat_g 0, the analyzer
    returns the record with exactly these fields and values. *)
Theorem C1_apple_record (w : World) (uri : jsstring) (mimeType : option jsstring)
        (response : Response) (data : value) :
  answered w uri mimeType response ->
  ok response = true ->
  json response = inr data ->
  first_text data = Some (JString apple_text) ->
  outcome (analyzeImageWithGemini w uri mimeType) = inr apple_record
  /\ get_prop apple_record (js "name") = Some (JString (js "Apple"))
  /\ description (as_Meal apple_record) = Some (JString (js "A fruit"))
  /\ calories (as_Meal apple_record) = Some (JNumber (Number.of_Z 95))
  /\ protein_g (as_Meal apple_record) = Some (JNumber (Number.of_Z 0))
  /\ carbs_g (as_Meal apple_record) = Some (JNumber (Number.of_Z 25))
  /\ fat_g (as_Meal apple_record) = Some (JNumber (Number.of_Z 0)).
Proof.
  intros Hans Hok Hjson Htext. split.
  - rewrite (ok_outcome w uri mimeType response data Hans Hok Hjson), Htext.
    cbn [reply_outcome]. change (truthy (Some (JString apple_text))) with true.
    cbv iota. now rewrite extract_apple.
  - repeat split; reflexivity.
Qed.

Lemma C1_apple_record_witness :
  answered (world_with (inr (reply (JString apple_text)))) sample_uri None
           (reply (JString apple_text))
  /\ outcome (analyzeImageWithGemini (world_with (inr (reply (JString apple_text))))
                                     sample_uri None)
     = inr apple_record.
Proof.
  split.
  - sample_answered.
  - apply (C1_apple_record (world_with (inr (reply (JString apple_text))))
                           sample_uri None (reply (JString apple_text))
                           (envelope (JString apple_text))).
    + sample_answered.
    + reflexivity.
    + reflexivity.
    + reflexivity.
Defined.

(** C4 (amended): for a media type outside the list image/jpeg, image/png,
    image/webp, image/heic, image/heif, the analyzer submits no request and
    fails; the image is read and encoded before the media type is checked,
    so the failure is UnsupportedFormat when the image can be read, and the
    rejection of the read otherwise. *)
Theorem C4_unsupported_format (w : World) (uri mimeType : jsstring) :
  ~ In mimeType [js "image/jpeg"; js "image/png"; js "image/webp";
                 js "image/heic"; js "image/heif"] ->
  requests (trace (analyzeImageWithGemini w uri (Some mimeType))) = []
  /\ match file_bytes w uri with
     | inr _ =>
         outcome (analyzeImageWithGemini w uri (Some mimeType))
         = inl (UnsupportedFormat mimeType)
     | inl e => outcome (analyzeImageWithGemini w uri (Some mimeType)) = inl e
     end.
Proof.
  intros Hnot.
  assert (Hmime : includes supportedMimeTypes (mime_or_default (Some mimeType)) = false).
  { apply not_true_is_false. intros H. apply includes_In in H. exact (Hnot H). }
  destruct (file_bytes w uri) as [e|bytes] eqn:Hread.
  - now rewrite (analyze_unreadable w uri (Some mimeType) e Hread).
  - now rewrite (analyze_unsupported w uri (Some mimeType) bytes Hread Hmime).
Qed.

Lemma C4_unsupported_format_witness :
  ~ In (js "image/gif") [js "image/jpeg"; js "image/png"; js "image/webp";
                         js "image/heic"; js "image/heif"]
  /\ requests (trace (analyzeImageWithGemini (world_with (inl TypeError)) sample_uri
                                             (Some (js "image/gif")))) = []
  /\ outcome (analyzeImageWithGemini (world_with (inl TypeError)) sample_uri
                                     (Some (js "image/gif")))
     = inl (UnsupportedFormat (js "image/gif")).
Proof.
  assert (Hnot : ~ In (js "image/gif") [js "image/jpeg"; js "image/png"; js "image/webp";
                                        js "image/heic"; js "image/heif"]).
  { vm_compute. intros H. repeat (destruct H as [H|H]; [discriminate H|]). exact H. }
  split; [exact Hnot|].
  exact (C4_unsupported_format (world_with (inl TypeError)) sample_uri
                               (js "image/gif") Hnot).
Defined.

(** C4 as stated fails when the image cannot be read: the media type
    image/gif is outside the list, and the failure is the rejection of the
    read, not UnsupportedFormat. *)
Lemma C4_unreadable_image :
  ~ In (js "image/gif") [js "image/jpeg"; js "image/png"; js "image/webp";
                         js "image/heic"; js "image/heif"]
  /\ outcome (analyzeImageWithGemini unreadable_world sample_uri (Some (js "image/gif")))
     = inl (Error (js "File does not exist"))
  /\ outcome (analyzeImageWithGemini unreadable_world sample_uri (Some (js "image/gif")))
     <> inl (UnsupportedFormat (js "image/gif")).
Proof.
  split; [|split; [reflexivity | vm_compute; discriminate]].
  vm_compute. intros H. repeat (destruct H as [H|H]; [discriminate H|]). exact H.
Qed.

(** The path [candidates[0].content.parts[0].text] of an envelope: the text
    of the first part of the first candidate. *)
Lemma first_text_envelope (text : value) (parts candidates : list value)
      (part content candidate top : list (jsstring * value)) :
  lookup top (js "candidates") = Some (JArray (JObject candidate :: candidates)) ->
  lookup candidate (js "content") = Some (JObject content) ->
  lookup content (js "parts") = Some (JArray (JObject part :: parts)) ->
  lookup part (js "text") = Some text ->
  first_text (JObject top) = Some text.
Proof.
  intros H1 H2 H3 H4. unfold first_text. cbn [opt_chain get_prop].
  rewrite H1. cbn [opt_chain get_index0 hd_error get_prop].
  rewrite H2. cbn [opt_chain get_prop].
  rewrite H3. cbn [opt_chain get_index0 hd_error get_prop].
  exact H4.
Qed.

(** C7 fails on the code: the body of an [ok] response is decoded without
    a guard.  When the body is not JSON, [response.json()] rejects, the
    rejection is rethrown as it is, and the analyzer fails with the
    SyntaxError instead of EmptyResponse, although the response is a
    success and no text part can be found in it. *)
Theorem C7_undecodable_body :
  ok undecodable_response = true
  /\ answered (world_with (inr undecodable_response)) sample_uri None undecodable_response
  /\ analyzeImageWithGemini (world_with (inr undecodable_response)) sample_uri None
     = ([FileRead sample_uri;
         Fetch (build_request (world_with (inr undecodable_response))
                              (js "image/jpeg") (Base64.encode sample_bytes))],
        inl SyntaxError)
  /\ inl SyntaxError <> (inl EmptyResponse : result value).
Proof.
  split; [reflexivity|]. split; [sample_answered|]. split; [reflexivity|discriminate].
Qed.

(** C10: when the upstream call succeeds and the text of the first part of
    the first candidate is the empty string, the analyzer fails with
    EmptyResponse, as for an absent text, and not with MalformedPayload;
    nothing is written to the console. *)
Theorem C10_empty_text (w : World) (uri : jsstring) (mimeType : option jsstring)
        (response : Response) (data : value) :
  answered w uri mimeType response ->
  ok response = true ->
  json response = inr data ->
  first_text data = Some (JString []) ->
  outcome (analyzeImageWithGemini w uri mimeType) = inl EmptyResponse
  /\ outcome (analyzeImageWithGemini w uri mimeType) <> inl MalformedPayload
  /\ forall args, ~ In (ConsoleError args) (trace (analyzeImageWithGemini w uri mimeType)).
Proof.
  intros Hans Hok Hjson Htext.
  assert (Hout : outcome (analyzeImageWithGemini w uri mimeType) = inl EmptyResponse).
  { rewrite (ok_outcome w uri mimeType response data Hans Hok Hjson), Htext.
    reflexivity. }
  split; [exact Hout|]. split.
  - rewrite Hout. vm_compute. discriminate.
  - intros args. destruct Hans as (bytes & Hread & Hmime & Hfetch).
    rewrite (analyze_answered w uri mimeType bytes response Hread Hmime Hfetch).
    unfold handle_response, read_reply, bind, lift. rewrite Hok, Hjson, Htext.
    cbn. intros [H|[H|[]]]; discriminate H.
Qed.

Lemma C10_empty_text_witness :
  answered (world_with (inr (reply (JString [])))) sample_uri None (reply (JString []))
  /\ outcome (analyzeImageWithGemini (world_with (inr (reply (JString []))))
                                     sample_uri None)
     = inl EmptyResponse.
Proof.
  split; [sample_answered|].
  refine (proj1 (C10_empty_text (world_with (inr (reply (JString [])))) sample_uri None
                                (reply (JString [])) (envelope (JString []))
                                _ eq_refl eq_refl eq_refl)).
  sample_answered.
Defined.

(** ** Failures reported by the endpoint *)

(** The message reported in an error envelope is carried as it is. *)
Lemma upstream_failure_reported (response : Response)
      (top err : list (jsstring * value)) (c : N) (message : jsstring) :
  json response = inr (JObject top) ->
  lookup top (js "error") = Some (JObject err) ->
  lookup err (js "message") = Some (JString (c :: message)) ->
  outcome (upstream_failure response) = inl (UpstreamError (c :: message)).
Proof.
  intros Hjson Herr Hmsg. unfold upstream_failure, bind, lift. rewrite Hjson.
  cbn [error_message get_prop opt_chain]. rewrite Herr. cbn [opt_chain get_prop].
  rewrite Hmsg. reflexivity.
Qed.

(** Without a reported message, the status text is carried. *)
Lemma upstream_failure_status (response : Response) (errorData : value) :
  json response = inr errorData ->
  error_message errorData = inr None ->
  outcome (upstream_failure response) = inl (UpstreamError (statusText response)).
Proof.
  intros Hjson Hmsg. unfold upstream_failure, bind, lift. rewrite Hjson, Hmsg.
  reflexivity.
Qed.

Example quota_exceeded :
  outcome (analyzeImageWithGemini (world_with (inr quota_response)) sample_uri None)
  = inl (UpstreamError (js "quota exceeded")).
Proof. reflexivity. Qed.

(** C5 fails on the code: the body of a response that is not [ok] is decoded
    without a guard.  When the body is not JSON the analyzer fails with the
    SyntaxError of [response.json()], and when it is the JSON text null with
    the TypeError of [errorData.error]; neither failure is an UpstreamError
    that carries the status text. *)
Theorem C5_error_body_unguarded :
  outcome (analyzeImageWithGemini (world_with (inr bad_gateway_response)) sample_uri None)
  = inl SyntaxError
  /\ outcome (analyzeImageWithGemini (world_with (inr null_error_response)) sample_uri None)
     = inl TypeError
  /\ inl SyntaxError <> (inl (UpstreamError (js "Bad Gateway")) : result value)
  /\ inl TypeError <> (inl (UpstreamError (js "Bad Gateway")) : result value).
Proof. repeat split; try reflexivity; discriminate. Qed.

(** ** Replies without a pair of braces *)

(** A reply without any brace is rejected. *)
Lemma no_brace_malformed (w : World) (uri : jsstring) (mimeType : option jsstring)
      (response : Response) (data : value) (c : N) (raw : jsstring) :
  answered w uri mimeType response ->
  ok response = true ->
  json response = inr data ->
  first_text data = Some (JString (c :: raw)) ->
  brace_free (strip_fences (c :: raw)) ->
  outcome (analyzeImageWithGemini w uri mimeType) = inl MalformedPayload.
Proof.
  intros Hans Hok Hjson Htext Hfree.
  rewrite (ok_outcome w uri mimeType response data Hans Hok Hjson), Htext.
  cbn [reply_outcome truthy extract].
  now rewrite (json_slice_no_brace _ Hfree), parse_empty.
Qed.

(** C8 fails on the code: the reply null{ has an opening brace and no
    closing brace, so it has no pair of braces; the slice is cut with the
    indices -1 + 1 and 4 swapped, the text null before the brace is parsed,
    and the analyzer returns null instead of failing with
    MalformedPayload. *)
Theorem C8_unpaired_brace_accepted :
  ~ In rbrace (js "null{")
  /\ spec_payload (strip_fences (js "null{")) = []
  /\ json_slice (js "null{") = js "null"
  /\ analyzeImageWithGemini (world_with (inr (reply (JString (js "null{")))))
                            sample_uri None
     = ([FileRead sample_uri;
         Fetch (build_request (world_with (inr (reply (JString (js "null{")))))
                              (js "image/jpeg") (Base64.encode sample_bytes))],
        inr JNull).
Proof.
  split; [|repeat split; reflexivity].
  vm_compute. intros H. repeat (destruct H as [H|H]; [discriminate H|]). exact H.
Qed.

(** ** The request *)

Lemma prompt_keys_value :
  prompt_keys = Some [js "meal_name"; js "description"; js "calories";
                      js "protein_g"; js "carbs_g"; js "fat_g"].
Proof. vm_compute. reflexivity. Qed.

(** C6 as stated fails: the first key the instruction asks for is
    meal_name, not name. *)
Lemma C6_prompt_asks_meal_name :
  prompt_keys <> Some [js "name"; js "description"; js "calories";
                       js "protein_g"; js "carbs_g"; js "fat_g"]
  /\ indexOf MealRecognitionPrompt (jsq "'name'") = -1.
Proof.
  split; [rewrite prompt_keys_value; vm_compute; discriminate | vm_compute; reflexivity].
Qed.

(** C6 (amended): an invocation that reads the image and has a media type of
    the list submits exactly one request.  Its body is the serialization of
    a single turn with two parts: the fixed instruction, which asks for a
    JSON object with the keys meal_name, description, calories, protein_g,
    carbs_g and fat_g, and the inlined base64 image with its media type. *)
Theorem C6_request (w : World) (uri : jsstring) (mimeType : option jsstring)
        (bytes : list byte) :
  file_bytes w uri = inr bytes ->
  includes supportedMimeTypes (mime_or_default mimeType) = true ->
  exists request,
    requests (trace (analyzeImageWithGemini w uri mimeType)) = [request]
    /\ url request = API_URL w
    /\ method request = js "POST"
    /\ body request
       = JSON.stringify
           (JObject [(js "contents", JArray [
              JObject [(js "parts", JArray [
                JObject [(js "text", JString MealRecognitionPrompt)];
                JObject [(js "inline_data", JObject [
                  (js "mime_type", JString (mime_or_default mimeType));
                  (js "data", JString (Base64.encode bytes))])]])]])])
    /\ prompt_keys = Some [js "meal_name"; js "description"; js "calories";
                           js "protein_g"; js "carbs_g"; js "fat_g"].
Proof.
  intros Hread Hmime.
  exists (build_request w (mime_or_default mimeType) (Base64.encode bytes)).
  split; [|repeat split; exact prompt_keys_value].
  destruct (fetch w (build_request w (mime_or_default mimeType) (Base64.encode bytes)))
    as [e|response] eqn:Hfetch.
  - now rewrite (analyze_rejected w uri mimeType bytes e Hread Hmime Hfetch).
  - rewrite (analyze_answered w uri mimeType bytes response Hread Hmime Hfetch).
    cbn [trace fst]. unfold requests. rewrite flat_map_app.
    fold (requests (trace (handle_response response))).
    rewrite handle_response_requests. reflexivity.
Qed.

Lemma C6_request_witness :
  file_bytes (world_with (inr (reply (JString apple_text)))) sample_uri = inr sample_bytes
  /\ includes supportedMimeTypes (mime_or_default (Some (js "image/png"))) = true
  /\ exists request,
       requests (trace (analyzeImageWithGemini
                          (world_with (inr (reply (JString apple_text))))
                          sample_uri (Some (js "image/png")))) = [request]
       /\ JSON.parse (body request)
          = inr (request_payload (js "image/png") (js "SGkh")).
Proof.
  split; [reflexivity|]. split; [reflexivity|].
  destruct (C6_request (world_with (inr (reply (JString apple_text)))) sample_uri
                       (Some (js "image/png")) sample_bytes eq_refl eq_refl)
    as (request & Hreq & _ & _ & Hbody & _).
  exists request. split; [exact Hreq|].
  rewrite Hbody. vm_compute. reflexivity.
Defined.

(** ** The wire encoding *)

Section Base64Facts.

Ltac euclid := zify; Z.to_euclidean_division_equations; lia.

Ltac decide_tests :=
  repeat match goal with
         | |- context [(?a <=? ?b)%N] => destruct (N.leb_spec a b)
         | |- context [(?a <? ?b)%N] => destruct (N.ltb_spec a b)
         | |- context [(?a =? ?b)%N] => destruct (N.eqb_spec a b)
         end;
  cbn [andb orb negb].

Lemma sextet_of_char_of_sextet (n : N) :
  (n < 64)%N -> Base64.sextet_of_char (Base64.char_of_sextet n) = Some n.
Proof.
  intros Hn. unfold Base64.char_of_sextet.
  destruct (N.ltb_spec n 26); [|destruct (N.ltb_spec n 52);
    [|destruct (N.ltb_spec n 62); [|destruct (N.eqb_spec n 62)]]];
    unfold Base64.sextet_of_char; decide_tests; try lia; f_equal; lia.
Qed.

Lemma char_of_sextet_not_pad (n : N) :
  (Base64.char_of_sextet n =? Base64.pad)%N = false.
Proof.
  unfold Base64.char_of_sextet, Base64.pad. apply N.eqb_neq.
  decide_tests; lia.
Qed.

Lemma byte_of_to_N (a : byte) (n : N) : n = Byte.to_N a -> Base64.byte_of n = Some a.
Proof. intros ->. apply Byte.of_to_N. Qed.

Lemma to_N_lt (a : byte) : (Byte.to_N a < 256)%N.
Proof. pose proof (Byte.to_N_bounded a). lia. Qed.

(** Induction on a list of bytes, three at a time. *)
Lemma bytes_ind3 (P : list byte -> Prop) :
  P [] ->
  (forall a, P [a]) ->
  (forall a b, P [a; b]) ->
  (forall a b c rest, P rest -> P (a :: b :: c :: rest)) ->
  forall bs, P bs.
Proof.
  intros H0 H1 H2 H3.
  refine (fix go (bs : list byte) : P bs :=
            match bs with
            | [] => H0
            | [a] => H1 a
            | [a; b] => H2 a b
            | a :: b :: c :: rest => H3 a b c rest (go rest)
            end).
Qed.

Lemma decode_group (a b c : byte) (rest : jsstring) :
  Base64.decode (Base64.encode [a; b; c] ++ rest)
  = match Base64.decode rest with
    | Some bs => Some (a :: b :: c :: bs)
    | None => None
    end.
Proof.
  pose proof (to_N_lt a) as Ha. pose proof (to_N_lt b) as Hb.
  pose proof (to_N_lt c) as Hc.
  cbn [Base64.encode app Base64.decode].
  rewrite !char_of_sextet_not_pad. cbn [andb].
  rewrite !sextet_of_char_of_sextet by euclid.
  rewrite (byte_of_to_N a) by euclid.
  rewrite (byte_of_to_N b) by euclid.
  rewrite (byte_of_to_N c) by euclid.
  reflexivity.
Qed.

End Base64Facts.

(** C9: encoding any byte sequence to the base64 text that is put on the
    wire and decoding that text gives the byte sequence back. *)
Theorem C9_base64_round_trip (bytes : list byte) :
  Base64.decode (Base64.encode bytes) = Some bytes.
Proof.
  induction bytes as [|a|a b|a b c rest IH] using bytes_ind3.
  - reflexivity.
  - pose proof (to_N_lt a) as Ha.
    cbn [Base64.encode Base64.decode].
    rewrite N.eqb_refl. cbn [andb Base64.is_nil].
    rewrite !sextet_of_char_of_sextet
      by (zify; Z.to_euclidean_division_equations; lia).
    rewrite (byte_of_to_N a)
      by (zify; Z.to_euclidean_division_equations; lia).
    reflexivity.
  - pose proof (to_N_lt a) as Ha. pose proof (to_N_lt b) as Hb.
    cbn [Base64.encode Base64.decode].
    rewrite char_of_sextet_not_pad, N.eqb_refl. cbn [andb Base64.is_nil].
    rewrite !sextet_of_char_of_sextet
      by (zify; Z.to_euclidean_division_equations; lia).
    rewrite (byte_of_to_N a)
      by (zify; Z.to_euclidean_division_equations; lia).
    rewrite (byte_of_to_N b)
      by (zify; Z.to_euclidean_division_equations; lia).
    reflexivity.
  - change (Base64.encode (a :: b :: c :: rest))
      with (Base64.encode [a; b; c] ++ Base64.encode rest).
    now rewrite decode_group, IH.
Qed.

(** ** Extraction *)

(** C2 (amended): for a reply whose cleaned text has an opening brace before
    its last closing brace, the candidate payload is the substring from the
    first opening brace to the last closing brace, both included.  The
    candidate is parsed; when it parses, the value is returned; when it does
    not, the call fails with MalformedPayload, whose message is fixed, and
    the raw text is written to the console, not carried by the failure. *)
Theorem C2_extraction (w : World) (uri : jsstring) (mimeType : option jsstring)
        (bytes : list byte) (response : Response) (data : value)
        (c : N) (raw : jsstring) :
  file_bytes w uri = inr bytes ->
  includes supportedMimeTypes (mime_or_default mimeType) = true ->
  fetch w (build_request w (mime_or_default mimeType) (Base64.encode bytes))
  = inr response ->
  ok response = true ->
  json response = inr data ->
  first_text data = Some (JString (c :: raw)) ->
  (spec_payload (strip_fences (c :: raw)) <> [] ->
   json_slice (c :: raw) = spec_payload (strip_fences (c :: raw)))
  /\ (forall v,
        JSON.parse (json_slice (c :: raw)) = inr v ->
        analyzeImageWithGemini w uri mimeType
        = ([FileRead uri;
            Fetch (build_request w (mime_or_default mimeType) (Base64.encode bytes))],
           inr v))
  /\ (forall e,
        JSON.parse (json_slice (c :: raw)) = inl e ->
        analyzeImageWithGemini w uri mimeType
        = ([FileRead uri;
            Fetch (build_request w (mime_or_default mimeType) (Base64.encode bytes));
            ConsoleError [JString parse_failure_log; JString (c :: raw)]],
           inl (Error malformed_message))).
Proof.
  intros Hread Hmime Hfetch Hok Hjson Htext.
  split; [apply json_slice_spec_payload|].
  rewrite (analyze_answered w uri mimeType bytes response Hread Hmime Hfetch).
  unfold handle_response, read_reply, bind, lift. rewrite Hok, Hjson, Htext.
  cbn [negb truthy extract try_catch].
  split; intros x Hparse; rewrite Hparse; reflexivity.
Qed.

Lemma C2_extraction_witness :
  spec_payload (strip_fences (js "Sure: {oops} ok")) = js "{oops}"
  /\ analyzeImageWithGemini (world_with (inr (reply (JString (js "Sure: {oops} ok")))))
                            sample_uri None
     = ([FileRead sample_uri;
         Fetch (build_request (world_with (inr (reply (JString (js "Sure: {oops} ok")))))
                              (js "image/jpeg") (Base64.encode sample_bytes));
         ConsoleError [JString parse_failure_log; JString (js "Sure: {oops} ok")]],
        inl (Error malformed_message)).
Proof.
  split; [reflexivity|].
  refine (proj2 (proj2 (C2_extraction
                          (world_with (inr (reply (JString (js "Sure: {oops} ok")))))
                          sample_uri None sample_bytes
                          (reply (JString (js "Sure: {oops} ok")))
                          (envelope (JString (js "Sure: {oops} ok")))
                          83%N (js "ure: {oops} ok")
                          eq_refl eq_refl eq_refl eq_refl eq_refl eq_refl))
                SyntaxError _).
  reflexivity.
Defined.

(** C2 as stated fails: for the reply not json the parse fails, and the
    failure is an Error whose message does not include the raw text. *)
Lemma C2_failure_without_raw_text :
  outcome (analyzeImageWithGemini (world_with (inr (reply (JString (js "not json")))))
                                  sample_uri None)
  = inl (Error malformed_message)
  /\ indexOf malformed_message (js "not json") = -1.
Proof. split; vm_compute; reflexivity. Qed.

Section NoiseFacts.







End NoiseFacts.




(** The result has to be a record: the reply null{ is mapped to null by the
    swapped slice, and to nothing once it is wrapped. *)
Example noise_on_unpaired_brace :
  extract (JString (js "null{")) = inr JNull
  /\ extract (JString (wrap_in_fences (js "Sure! ") [] (js "null{"))) = inl SyntaxError.
Proof. split; reflexivity. Qed.

(** * Properties beyond the claims *)

(** ** The analyzer *)

Section AnalyzerFacts.

Lemma parse_members_object (fuel : nat) (acc : list (jsstring * value)) (s : jsstring)
      (v : value) (rest : jsstring) :
  JSON.parse_members fuel acc s = Some (v, rest) -> exists props, v = JObject props.
Proof.
  revert acc s. induction fuel as [|f IH]; intros acc s H; [discriminate H|].
  cbn [JSON.parse_members] in H.
  destruct (JSON.skip_ws s) as [|c r]; [discriminate H|].
  destruct (c =? 125)%N.
  - injection H as <- _. eauto.
  - destruct (c =? 44)%N; [|discriminate H].
    destruct (JSON.parse_member (JSON.parse_value f) r) as [[[k v'] r1]|];
      [|discriminate H].
    eapply IH. exact H.
Qed.

(** A text that starts with an opening brace parses to an object, if it
    parses at all. *)
Lemma parse_lbrace (r : jsstring) (v : value) :
  JSON.parse (lbrace :: r) = inr v -> exists props, v = JObject props.
Proof.
  unfold JSON.parse.
  destruct (JSON.parse_value (S (List.length (lbrace :: r))) (lbrace :: r))
    as [[v' rest]|] eqn:Hp; [|discriminate].
  destruct (JSON.skip_ws rest); [|discriminate].
  intros H. injection H as ->.
  cbn [JSON.parse_value JSON.skip_ws] in Hp.
  change (JSON.is_ws lbrace) with false in Hp. cbv iota in Hp.
  change (lbrace =? 123)%N with true in Hp. cbv iota in Hp.
  destruct (JSON.skip_ws r) as [|c1 r1]; [discriminate Hp|].
  destruct (c1 =? 125)%N; [injection Hp as <- _; eauto|].
  destruct (JSON.parse_member _ r) as [[[k x] r2]|]; [|discriminate Hp].
  eapply parse_members_object. exact Hp.
Qed.

Lemma from_first_suffix (c : N) (a b : jsstring) :
  exists a', from_first c (a ++ c :: b) = a' ++ c :: b.
Proof.
  induction a as [|x a (a' & IH)]; cbn [app from_first].
  - exists []. now rewrite N.eqb_refl.
  - destruct (x =? c)%N; [exists (x :: a); reflexivity | exists a'; exact IH].
Qed.

(** A cleaned text with an opening brace before a closing brace has a first
    opening brace before its last closing brace. *)
Lemma paired_span (x pre mid post : jsstring) :
  x = pre ++ lbrace :: mid ++ rbrace :: post ->
  exists pre' mid' post',
    x = pre' ++ lbrace :: mid' ++ rbrace :: post'
    /\ ~ In lbrace pre' /\ ~ In rbrace post'.
Proof.
  intros Hx.
  assert (Hl : In lbrace x) by (rewrite Hx; apply in_or_app; right; now left).
  destruct (first_occurrence lbrace x Hl) as (p & r & Hp & Hpre).
  assert (Hr : In rbrace r).
  { destruct (from_first_suffix lbrace pre (mid ++ rbrace :: post)) as (a' & Ha).
    rewrite <- Hx, Hp, from_first_app in Ha by exact Hpre.
    assert (Hin : In rbrace (lbrace :: r)).
    { rewrite Ha. apply in_or_app. right. right. apply in_or_app. right. now left. }
    destruct Hin as [Heq|Hin]; [discriminate Heq | exact Hin]. }
  destruct (last_occurrence rbrace r Hr) as (m & q & Hm & Hq).
  exists p, m, q. rewrite Hp, Hm. auto.
Qed.

End AnalyzerFacts.

(** X1: when the cleaned reply has an opening brace before a closing brace,
    the analyzer returns a JSON object or fails with MalformedPayload; it
    never returns a value that is not an object. *)
Theorem X1_paired_braces_object (w : World) (uri : jsstring) (mimeType : option jsstring)
        (response : Response) (data : value) (text pre mid post : jsstring) :
  answered w uri mimeType response ->
  ok response = true ->
  json response = inr data ->
  first_text data = Some (JString text) ->
  strip_fences text = pre ++ lbrace :: mid ++ rbrace :: post ->
  outcome (analyzeImageWithGemini w uri mimeType) = inl MalformedPayload
  \/ exists props, outcome (analyzeImageWithGemini w uri mimeType) = inr (JObject props).
Proof.
  intros Hans Hok Hjson Htext Hx.
  rewrite (ok_outcome w uri mimeType response data Hans Hok Hjson), Htext.
  destruct text as [|c raw]; [destruct pre; discriminate Hx|].
  cbn [reply_outcome truthy extract].
  destruct (paired_span _ _ _ _ Hx) as (p & m & q & Hx' & Hp & Hq).
  rewrite (json_slice_span (c :: raw) p m q Hx' Hp Hq).
  destruct (JSON.parse (lbrace :: m ++ [rbrace])) as [e|v] eqn:Hparse; [now left|].
  right. destruct (parse_lbrace _ _ Hparse) as (props & ->). eauto.
Qed.

Lemma X1_paired_braces_object_witness :
  strip_fences (js "Here: {1} and {2}") = js "Here: " ++ lbrace :: js "1} and {2" ++ rbrace :: []
  /\ (outcome (analyzeImageWithGemini
                 (world_with (inr (reply (JString (js "Here: {1} and {2}")))))
                 sample_uri None) = inl MalformedPayload
      \/ exists props,
           outcome (analyzeImageWithGemini
                      (world_with (inr (reply (JString (js "Here: {1} and {2}")))))
                      sample_uri None) = inr (JObject props)).
Proof.
  split; [reflexivity|].
  apply (X1_paired_braces_object
           (world_with (inr (reply (JString (js "Here: {1} and {2}")))))
           sample_uri None (reply (JString (js "Here: {1} and {2}")))
           (envelope (JString (js "Here: {1} and {2}")))
           (js "Here: {1} and {2}") (js "Here: ") (js "1} and {2") []).
  - sample_answered.
  - reflexivity.
  - reflexivity.
  - reflexivity.
  - reflexivity.
Defined.

(** X2: when the file read, the request or [response.json()] rejects, the
    analyzer fails with that very rejection, whether the response is [ok]
    or not, and writes nothing to the console. *)
Theorem X2_rejections_reach_caller (w : World) (uri : jsstring)
        (mimeType : option jsstring) (e : exn) :
  rejected_with w uri mimeType e ->
  outcome (analyzeImageWithGemini w uri mimeType) = inl e
  /\ forall args, ~ In (ConsoleError args) (trace (analyzeImageWithGemini w uri mimeType)).
Proof.
  intros [Hread|(bytes & Hread & Hmime & [Hfetch|(response & Hfetch & Hjson)])].
  - rewrite (analyze_unreadable w uri mimeType e Hread). split; [reflexivity|].
    intros args [H|[]]. discriminate H.
  - rewrite (analyze_rejected w uri mimeType bytes e Hread Hmime Hfetch).
    split; [reflexivity|]. intros args [H|[H|[]]]; discriminate H.
  - rewrite (analyze_answered w uri mimeType bytes response Hread Hmime Hfetch).
    unfold handle_response, upstream_failure, read_reply, bind, lift.
    rewrite Hjson. destruct (ok response); cbn; (split; [reflexivity|]);
      intros args [H|[H|[]]]; discriminate H.
Qed.

Lemma X2_rejections_reach_caller_witness :
  rejected_with (world_with (inr {| ok := true; statusText := js "OK";
                                   json := inl SyntaxError |}))
                sample_uri None SyntaxError
  /\ outcome (analyzeImageWithGemini
                (world_with (inr {| ok := true; statusText := js "OK";
                                    json := inl SyntaxError |}))
                sample_uri None) = inl SyntaxError.
Proof.
  assert (H : rejected_with (world_with (inr {| ok := true; statusText := js "OK";
                                               json := inl SyntaxError |}))
                            sample_uri None SyntaxError).
  { right. exists sample_bytes. split; [reflexivity|]. split; [reflexivity|].
    right. eexists. split; reflexivity. }
  split; [exact H|].
  exact (proj1 (X2_rejections_reach_caller _ _ _ _ H)).
Defined.

(** X3: the analyzer writes to the console only on the way to a
    MalformedPayload failure: the entry carries the fixed log text and the
    text part of the reply, which is truthy and could not be extracted. *)
Theorem X3_console_only_when_malformed (w : World) (uri : jsstring)
        (mimeType : option jsstring) (args : list value) :
  In (ConsoleError args) (trace (analyzeImageWithGemini w uri mimeType)) ->
  outcome (analyzeImageWithGemini w uri mimeType) = inl MalformedPayload
  /\ exists text e,
       args = [JString parse_failure_log; text]
       /\ truthy (Some text) = true
       /\ extract text = inl e.
Proof.
  destruct (file_bytes w uri) as [e|bytes] eqn:Hread.
  { rewrite (analyze_unreadable w uri mimeType e Hread).
    intros [H|[]]. discriminate H. }
  destruct (includes supportedMimeTypes (mime_or_default mimeType)) eqn:Hmime.
  2:{ rewrite (analyze_unsupported w uri mimeType bytes Hread Hmime).
      intros [H|[]]. discriminate H. }
  destruct (fetch w (build_request w (mime_or_default mimeType) (Base64.encode bytes)))
    as [e|response] eqn:Hfetch.
  { rewrite (analyze_rejected w uri mimeType bytes e Hread Hmime Hfetch).
    intros [H|[H|[]]]; discriminate H. }
  rewrite (analyze_answered w uri mimeType bytes response Hread Hmime Hfetch).
  unfold handle_response, upstream_failure, read_reply, bind, lift.
  destruct (ok response); cbn [negb].
  - destruct (json response) as [e|data];
      [cbn; intros [H|[H|[]]]; discriminate H|].
    destruct (first_text data) as [t|];
      [|cbn; intros [H|[H|[]]]; discriminate H].
    destruct (truthy (Some t)) eqn:Ht;
      [|cbn; intros [H|[H|[]]]; discriminate H].
    cbn [negb]. unfold try_catch, lift.
    destruct (extract t) as [e|v] eqn:Hext;
      [|cbn; intros [H|[H|[]]]; discriminate H].
    cbn. intros [H|[H|[H|[]]]]; try discriminate H.
    injection H as <-. split; [reflexivity|]. exists t, e. auto.
  - destruct (json response) as [e|errorData];
      [cbn; intros [H|[H|[]]]; discriminate H|].
    destruct (error_message errorData) as [e|message];
      [cbn; intros [H|[H|[]]]; discriminate H|].
    destruct (to_string _); cbn; intros [H|[H|[]]]; discriminate H.
Qed.

Lemma X3_console_only_when_malformed_witness :
  In (ConsoleError [JString parse_failure_log; JString (js "not json")])
     (trace (analyzeImageWithGemini (world_with (inr (reply (JString (js "not json")))))
                                    sample_uri None))
  /\ outcome (analyzeImageWithGemini (world_with (inr (reply (JString (js "not json")))))
                                     sample_uri None) = inl MalformedPayload.
Proof.
  assert (H : In (ConsoleError [JString parse_failure_log; JString (js "not json")])
                 (trace (analyzeImageWithGemini
                           (world_with (inr (reply (JString (js "not json")))))
                           sample_uri None))).
  { right. right. left. reflexivity. }
  split; [exact H|].
  exact (proj1 (X3_console_only_when_malformed _ _ _ _ H)).
Defined.

(** X4: a text part that is not a string is never extracted: when it is
    truthy (a number other than zero, true, an array, an object) the call
    of its missing [replace] method is caught and the analyzer fails with
    MalformedPayload; when it is falsy (null, false, zero) the analyzer
    fails with EmptyResponse. *)
Theorem X4_text_not_a_string (w : World) (uri : jsstring) (mimeType : option jsstring)
        (response : Response) (data text : value) :
  answered w uri mimeType response ->
  ok response = true ->
  json response = inr data ->
  first_text data = Some text ->
  (forall s, text <> JString s) ->
  outcome (analyzeImageWithGemini w uri mimeType)
  = inl (if truthy (Some text) then MalformedPayload else EmptyResponse).
Proof.
  intros Hans Hok Hjson Htext Hnot.
  rewrite (ok_outcome w uri mimeType response data Hans Hok Hjson), Htext.
  cbn [reply_outcome]. destruct (truthy (Some text)); [|reflexivity].
  destruct text; try reflexivity. now contradiction (Hnot s).
Qed.

Lemma X4_text_not_a_string_witness :
  answered (world_with (inr (reply (JArray [])))) sample_uri None (reply (JArray []))
  /\ outcome (analyzeImageWithGemini (world_with (inr (reply (JArray [])))) sample_uri None)
     = inl MalformedPayload.
Proof.
  split; [sample_answered|].
  apply (X4_text_not_a_string (world_with (inr (reply (JArray [])))) sample_uri None
                              (reply (JArray [])) (envelope (JArray [])) (JArray [])).
  - sample_answered.
  - reflexivity.
  - reflexivity.
  - reflexivity.
  - intros s H. discriminate H.
Defined.

(** X5: for a response that is not [ok] and whose body decodes to a value
    other than null, the analyzer fails with UpstreamError: it carries the
    message [error.message] of the body when that is a string that is not
    empty, and the status text when that message is missing, null, empty,
    false or zero. *)
Theorem X5_upstream_error_message (w : World) (uri : jsstring)
        (mimeType : option jsstring) (response : Response) (errorData : value) :
  answered w uri mimeType response ->
  ok response = false ->
  json response = inr errorData ->
  errorData <> JNull ->
  (forall c message,
      opt_chain (get_prop errorData (js "error")) (fun e => get_prop e (js "message"))
      = Some (JString (c :: message)) ->
      outcome (analyzeImageWithGemini w uri mimeType)
      = inl (UpstreamError (c :: message)))
  /\ (truthy (opt_chain (get_prop errorData (js "error"))
                        (fun e => get_prop e (js "message"))) = false ->
      outcome (analyzeImageWithGemini w uri mimeType)
      = inl (UpstreamError (statusText response))).
Proof.
  intros Hans Hok Hjson Hnull.
  rewrite (outcome_answered w uri mimeType response Hans).
  unfold handle_response, upstream_failure, bind, lift. rewrite Hok, Hjson.
  cbn [negb].
  assert (Hmsg : error_message errorData
                 = inr (opt_chain (get_prop errorData (js "error"))
                                  (fun e => get_prop e (js "message")))).
  { destruct errorData; try reflexivity. now contradiction Hnull. }
  rewrite Hmsg. split.
  - intros c message ->. reflexivity.
  - intros Hfalsy. unfold or_else.
    destruct (opt_chain _ _) as [m|]; [rewrite Hfalsy|]; reflexivity.
Qed.

Lemma X5_upstream_error_message_witness :
  answered (world_with (inr quota_response)) sample_uri None quota_response
  /\ outcome (analyzeImageWithGemini (world_with (inr quota_response)) sample_uri None)
     = inl (UpstreamError (js "quota exceeded")).
Proof.
  split; [sample_answered|].
  refine (proj1 (X5_upstream_error_message
                   (world_with (inr quota_response)) sample_uri None quota_response
                   (JObject [(js "error",
                              JObject [(js "message", JString (js "quota exceeded"))])])
                   _ eq_refl eq_refl _) 113%N (js "uota exceeded") eq_refl).
  - sample_answered.
  - discriminate.
Defined.

(** X6: the analyzer returns a value only when every step has succeeded:
    the image was read, the media type is in the list, the response is [ok],
    its text part is a string that is not empty, and the value is the parse
    of the slice of that text; nothing was logged, and one request was
    submitted.  There is no partial result. *)
Theorem X6_result_only_on_success (w : World) (uri : jsstring)
        (mimeType : option jsstring) (v : value) :
  outcome (analyzeImageWithGemini w uri mimeType) = inr v ->
  exists bytes response data c raw,
    file_bytes w uri = inr bytes
    /\ includes supportedMimeTypes (mime_or_default mimeType) = true
    /\ fetch w (build_request w (mime_or_default mimeType) (Base64.encode bytes))
       = inr response
    /\ ok response = true
    /\ json response = inr data
    /\ first_text data = Some (JString (c :: raw))
    /\ JSON.parse (json_slice (c :: raw)) = inr v
    /\ trace (analyzeImageWithGemini w uri mimeType)
       = [FileRead uri;
          Fetch (build_request w (mime_or_default mimeType) (Base64.encode bytes))].
Proof.
  destruct (file_bytes w uri) as [e|bytes] eqn:Hread.
  { rewrite (analyze_unreadable w uri mimeType e Hread). discriminate. }
  destruct (includes supportedMimeTypes (mime_or_default mimeType)) eqn:Hmime.
  2:{ rewrite (analyze_unsupported w uri mimeType bytes Hread Hmime). discriminate. }
  destruct (fetch w (build_request w (mime_or_default mimeType) (Base64.encode bytes)))
    as [e|response] eqn:Hfetch.
  { rewrite (analyze_rejected w uri mimeType bytes e Hread Hmime Hfetch). discriminate. }
  rewrite (analyze_answered w uri mimeType bytes response Hread Hmime Hfetch).
  unfold handle_response, upstream_failure, read_reply, bind, lift.
  destruct (ok response) eqn:Hok; cbn [negb].
  - destruct (json response) as [e|data] eqn:Hjson; [discriminate|].
    destruct (first_text data) as [t|] eqn:Htext; [|discriminate].
    destruct (truthy (Some t)) eqn:Ht; [|discriminate].
    cbn [negb]. unfold try_catch, lift.
    destruct (extract t) as [e|v'] eqn:Hext; [discriminate|].
    cbn. intros H. injection H as ->.
    destruct t as [| | |s| |]; try discriminate Hext.
    destruct s as [|c raw]; [discriminate Ht|].
    exists bytes, response, data, c, raw. repeat split; auto.
  - destruct (json response) as [e|errorData]; [discriminate|].
    destruct (error_message errorData) as [e|message]; [discriminate|].
    destruct (to_string _); discriminate.
Qed.

Lemma X6_result_only_on_success_witness :
  outcome (analyzeImageWithGemini (world_with (inr (reply (JString apple_text))))
                                  sample_uri None) = inr apple_record
  /\ exists bytes response data c raw,
       file_bytes (world_with (inr (reply (JString apple_text)))) sample_uri = inr bytes
       /\ ok response = true
       /\ json response = inr data
       /\ first_text data = Some (JString (c :: raw))
       /\ JSON.parse (json_slice (c :: raw)) = inr apple_record.
Proof.
  assert (H : outcome (analyzeImageWithGemini
                         (world_with (inr (reply (JString apple_text))))
                         sample_uri None) = inr apple_record).
  { vm_compute. reflexivity. }
  split; [exact H|].
  destruct (X6_result_only_on_success _ _ _ _ H)
    as (bytes & response & data & c & raw & H1 & _ & _ & H4 & H5 & H6 & H7 & _).
  exists bytes, response, data, c, raw. auto.
Defined.

(** X7: an invocation never submits more than one request, and it submits
    none when the image cannot be read or the media type is not in the
    list: there is no retry. *)
Theorem X7_no_retry (w : World) (uri : jsstring) (mimeType : option jsstring) :
  requests (trace (analyzeImageWithGemini w uri mimeType)) = []
  \/ exists bytes,
       file_bytes w uri = inr bytes
       /\ includes supportedMimeTypes (mime_or_default mimeType) = true
       /\ requests (trace (analyzeImageWithGemini w uri mimeType))
          = [build_request w (mime_or_default mimeType) (Base64.encode bytes)].
Proof.
  destruct (file_bytes w uri) as [e|bytes] eqn:Hread.
  { left. now rewrite (analyze_unreadable w uri mimeType e Hread). }
  destruct (includes supportedMimeTypes (mime_or_default mimeType)) eqn:Hmime.
  2:{ left. now rewrite (analyze_unsupported w uri mimeType bytes Hread Hmime). }
  right. exists bytes. split; [reflexivity|]. split; [reflexivity|].
  destruct (fetch w (build_request w (mime_or_default mimeType) (Base64.encode bytes)))
    as [e|response] eqn:Hfetch.
  - now rewrite (analyze_rejected w uri mimeType bytes e Hread Hmime Hfetch).
  - rewrite (analyze_answered w uri mimeType bytes response Hread Hmime Hfetch).
    cbn [trace fst]. unfold requests. rewrite flat_map_app.
    fold (requests (trace (handle_response response))).
    now rewrite handle_response_requests.
Qed.

(** ** Fence stripping leaves no fence *)

Section NoFence.

Lemma starts_with_fence_inv (s : jsstring) :
  starts_with fence s = true ->
  exists r, s = backtick :: backtick :: backtick :: r.
Proof.
  change fence with [backtick; backtick; backtick].
  destruct s as [|a [|b [|c s]]]; cbn [starts_with]; try discriminate;
    try (rewrite ?andb_false_r; discriminate).
  intros H. apply andb_prop in H. destruct H as [Ha H].
  apply andb_prop in H. destruct H as [Hb H].
  apply andb_prop in H. destruct H as [Hc _].
  apply N.eqb_eq in Ha, Hb, Hc. subst. now exists s.
Qed.

Lemma fence_json_is_fence (s : jsstring) :
  starts_with fence_json s = true -> starts_with fence s = true.
Proof.
  change fence_json with (fence ++ js "json").
  change fence with [backtick; backtick; backtick].
  destruct s as [|a [|b [|c s]]]; cbn [starts_with app]; try discriminate;
    try (rewrite ?andb_false_r; discriminate).
  intros H. apply andb_prop in H. destruct H as [-> H].
  apply andb_prop in H. destruct H as [-> H].
  apply andb_prop in H. destruct H as [-> _]. reflexivity.
Qed.

(** The cleaned text starts with a backtick only if the text does. *)
Lemma strip_head_backtick (s r : jsstring) :
  strip_fences_from 0 s = backtick :: r -> exists s', s = backtick :: s'.
Proof.
  destruct s as [|c s]; [discriminate|]. cbn [strip_fences_from].
  destruct (starts_with fence_json (c :: s)) eqn:E1.
  { apply fence_json_is_fence, starts_with_fence_inv in E1.
    destruct E1 as (r' & E1). injection E1 as -> _. eauto. }
  destruct (starts_with fence (c :: s)) eqn:E2.
  { apply starts_with_fence_inv in E2.
    destruct E2 as (r' & E2). injection E2 as -> _. eauto. }
  intros H. injection H as -> _. eauto.
Qed.

(** The cleaned text starts with two backticks only if the text does. *)
Lemma strip_head_backticks (s r : jsstring) :
  strip_fences_from 0 s = backtick :: backtick :: r ->
  exists s', s = backtick :: backtick :: s'.
Proof.
  destruct s as [|c s]; [discriminate|]. cbn [strip_fences_from].
  destruct (starts_with fence_json (c :: s)) eqn:E1.
  { apply fence_json_is_fence, starts_with_fence_inv in E1.
    destruct E1 as (r' & E1). injection E1 as -> ->. eauto. }
  destruct (starts_with fence (c :: s)) eqn:E2.
  { apply starts_with_fence_inv in E2.
    destruct E2 as (r' & E2). injection E2 as -> ->. eauto. }
  intros H. injection H as -> H.
  apply strip_head_backtick in H. destruct H as (s' & ->). eauto.
Qed.

Lemma strip_fences_from_no_fence (s : jsstring) :
  forall k, has_fence (strip_fences_from k s) = false.
Proof.
  induction s as [|c s IH]; intros k; [reflexivity|].
  cbn [strip_fences_from]. destruct k as [|k]; [|apply IH].
  destruct (starts_with fence_json (c :: s)) eqn:E1; [apply IH|].
  destruct (starts_with fence (c :: s)) eqn:E2; [apply IH|].
  cbn [has_fence]. rewrite IH, orb_false_r.
  destruct (starts_with fence (c :: strip_fences_from 0 s)) eqn:E3; [|reflexivity].
  apply starts_with_fence_inv in E3. destruct E3 as (r & E3).
  injection E3 as -> E3.
  apply strip_head_backticks in E3. destruct E3 as (s' & ->).
  discriminate E2.
Qed.

Lemma strip_fences_fixed (s : jsstring) :
  has_fence s = false -> strip_fences_from 0 s = s.
Proof.
  induction s as [|c s IH]; intros H; [reflexivity|].
  cbn [has_fence] in H. apply orb_false_elim in H. destruct H as [H1 H2].
  cbn [strip_fences_from].
  destruct (starts_with fence_json (c :: s)) eqn:E1.
  { apply fence_json_is_fence in E1. congruence. }
  rewrite H1. f_equal. now apply IH.
Qed.

End NoFence.

(** X8: the cleaning of the reply leaves no fence marker: no three
    backticks in a row occur in the cleaned text, wherever the fences were
    and however they overlapped, and cleaning a cleaned text changes
    nothing. *)
Theorem X8_no_fence_left (text : jsstring) :
  has_fence (strip_fences text) = false
  /\ strip_fences (strip_fences text) = strip_fences text.
Proof.
  split.
  - apply strip_fences_from_no_fence.
  - apply strip_fences_fixed, strip_fences_from_no_fence.
Qed.

(** ** The request body is JSON *)

Section RoundTrip.

Ltac euclid := zify; Z.to_euclidean_division_equations; lia.

Lemma hex_digit_hex_char (d : N) :
  (d < 16)%N -> JSON.hex_digit (JSON.hex_char d) = Some d.
Proof.
  intros Hd. unfold JSON.hex_char, JSON.hex_digit, JSON.is_digit.
  destruct (N.ltb_spec d 10).
  - replace ((48 <=? 48 + d) && (48 + d <=? 57))%N with true
      by (symmetry; apply andb_true_intro; split; apply N.leb_le; lia).
    f_equal. lia.
  - replace ((48 <=? 87 + d) && (87 + d <=? 57))%N with false
      by (symmetry; apply andb_false_intro2; apply N.leb_gt; lia).
    replace ((97 <=? 87 + d) && (87 + d <=? 102))%N with true
      by (symmetry; apply andb_true_intro; split; apply N.leb_le; lia).
    f_equal. lia.
Qed.

Lemma parse_chars_unicode_escape (c : N) (r : jsstring) :
  (c < 65536)%N ->
  JSON.parse_chars (JSON.unicode_escape c ++ r)
  = match JSON.parse_chars r with
    | Some (str, rest) => Some (c :: str, rest)
    | None => None
    end.
Proof.
  intros Hc. unfold JSON.unicode_escape.
  change (js "\u") with [92; 117]%N. cbn [app JSON.parse_chars].
  change (92 =? 34)%N with false. change (92 =? 92)%N with true.
  change (117 =? 117)%N with true. cbv iota.
  rewrite !hex_digit_hex_char by euclid.
  replace (c / 4096 mod 16 * 4096 + c / 256 mod 16 * 256 + c / 16 mod 16 * 16 + c mod 16)%N
    with c by euclid.
  reflexivity.
Qed.

Lemma parse_chars_short_escape (e x : N) (r : jsstring) :
  JSON.escape e = Some x -> (e =? 117)%N = false ->
  JSON.parse_chars (92 :: e :: r)%N
  = match JSON.parse_chars r with
    | Some (str, rest) => Some (x :: str, rest)
    | None => None
    end.
Proof.
  intros He Hu. cbn [JSON.parse_chars].
  change (92 =? 34)%N with false. change (92 =? 92)%N with true. cbv iota.
  now rewrite Hu, He.
Qed.

Lemma parse_chars_literal (c : N) (r : jsstring) :
  c <> 34%N -> c <> 92%N -> (32 <= c)%N ->
  JSON.parse_chars (c :: r)
  = match JSON.parse_chars r with
    | Some (str, rest) => Some (c :: str, rest)
    | None => None
    end.
Proof.
  intros H1 H2 H3. cbn [JSON.parse_chars].
  apply N.eqb_neq in H1, H2. rewrite H1, H2.
  replace (c <? 32)%N with false by (symmetry; apply N.ltb_ge; lia).
  reflexivity.
Qed.

Lemma is_lead_bound (c : N) : JSON.is_lead c = true -> (55296 <= c <= 56319)%N.
Proof.
  unfold JSON.is_lead. intros H. apply andb_prop in H. destruct H as [H1 H2].
  apply N.leb_le in H1, H2. lia.
Qed.

Lemma is_trail_bound (c : N) : JSON.is_trail c = true -> (56320 <= c <= 57343)%N.
Proof.
  unfold JSON.is_trail. intros H. apply andb_prop in H. destruct H as [H1 H2].
  apply N.leb_le in H1, H2. lia.
Qed.

(** A quoted string reads back as the string, for every sequence of code
    units. *)
Lemma parse_chars_quote_chars (n : nat) :
  forall s rest,
    (List.length s <= n)%nat ->
    JSON.parse_chars (JSON.quote_chars s ++ 34%N :: rest) = Some (s, rest).
Proof.
  induction n as [|n IH]; intros s rest Hn.
  - destruct s; [|cbn [List.length] in Hn; lia]. cbn. reflexivity.
  - destruct s as [|c r]; [cbn; reflexivity|].
    cbn [List.length] in Hn.
    assert (IHr : JSON.parse_chars (JSON.quote_chars r ++ 34%N :: rest) = Some (r, rest))
      by (apply IH; lia).
    cbn [JSON.quote_chars].
    destruct (N.eqb_spec c 8) as [->|H8].
    { change (js "\b") with [92; 98]%N. cbn [app].
      rewrite (parse_chars_short_escape 98 8) by reflexivity. now rewrite IHr. }
    destruct (N.eqb_spec c 9) as [->|H9].
    { change (js "\t") with [92; 116]%N. cbn [app].
      rewrite (parse_chars_short_escape 116 9) by reflexivity. now rewrite IHr. }
    destruct (N.eqb_spec c 10) as [->|H10].
    { change (js "\n") with [92; 110]%N. cbn [app].
      rewrite (parse_chars_short_escape 110 10) by reflexivity. now rewrite IHr. }
    destruct (N.eqb_spec c 12) as [->|H12].
    { change (js "\f") with [92; 102]%N. cbn [app].
      rewrite (parse_chars_short_escape 102 12) by reflexivity. now rewrite IHr. }
    destruct (N.eqb_spec c 13) as [->|H13].
    { change (js "\r") with [92; 114]%N. cbn [app].
      rewrite (parse_chars_short_escape 114 13) by reflexivity. now rewrite IHr. }
    destruct (N.eqb_spec c 34) as [->|H34].
    { cbn [app].
      rewrite (parse_chars_short_escape 34 34) by reflexivity. now rewrite IHr. }
    destruct (N.eqb_spec c 92) as [->|H92].
    { change (js "\\") with [92; 92]%N. cbn [app].
      rewrite (parse_chars_short_escape 92 92) by reflexivity. now rewrite IHr. }
    destruct (N.ltb_spec c 32) as [Hlt|Hge].
    { rewrite <- app_assoc, parse_chars_unicode_escape by lia. now rewrite IHr. }
    destruct (JSON.is_lead c) eqn:Hlead.
    { apply is_lead_bound in Hlead. destruct r as [|d r'].
      - rewrite parse_chars_unicode_escape by lia. cbn. reflexivity.
      - destruct (JSON.is_trail d) eqn:Htrail.
        + apply is_trail_bound in Htrail. cbn [List.length] in Hn.
          assert (IHr' : JSON.parse_chars (JSON.quote_chars r' ++ 34%N :: rest)
                         = Some (r', rest))
            by (apply IH; lia).
          cbn [app].
          rewrite (parse_chars_literal c) by lia.
          rewrite (parse_chars_literal d) by lia.
          now rewrite IHr'.
        + rewrite <- app_assoc, parse_chars_unicode_escape by lia. now rewrite IHr. }
    destruct (JSON.is_trail c) eqn:Htrail.
    { apply is_trail_bound in Htrail.
      rewrite <- app_assoc, parse_chars_unicode_escape by lia. now rewrite IHr. }
    cbn [app]. rewrite (parse_chars_literal c) by lia. now rewrite IHr.
Qed.

Lemma plain_array (l : list value) : plain (JArray l) = forallb plain l.
Proof. induction l as [|x l IH]; [reflexivity|]. cbn in *. now rewrite IH. Qed.

Lemma plain_object (ps : list (jsstring * value)) :
  plain (JObject ps)
  = keys_fresh [] (List.map fst ps) && forallb (fun p => plain (snd p)) ps.
Proof.
  cbn [plain]. f_equal.
  induction ps as [|[k x] ps IH]; [reflexivity|]. cbn [forallb snd]. now rewrite IH.
Qed.

Lemma stringify_array (l : list value) :
  JSON.stringify (JArray l) = js "[" ++ items_text l ++ js "]".
Proof. reflexivity. Qed.

Lemma stringify_object (ps : list (jsstring * value)) :
  JSON.stringify (JObject ps) = js "{" ++ members_text ps ++ js "}".
Proof. reflexivity. Qed.

Lemma items_text_cons (x : value) (l : list value) :
  items_text (x :: l) = JSON.stringify x ++ items_tail l.
Proof.
  revert x. induction l as [|y l IH]; intros x.
  - change (items_text [x]) with (JSON.stringify x).
    change (items_tail []) with (@nil N). now rewrite app_nil_r.
  - change (items_text (x :: y :: l))
      with (JSON.stringify x ++ js "," ++ items_text (y :: l)).
    rewrite IH.
    change (items_tail (y :: l)) with ((js "," ++ JSON.stringify y) ++ items_tail l).
    now rewrite <- app_assoc.
Qed.

Lemma members_text_cons (p : jsstring * value) (ps : list (jsstring * value)) :
  members_text (p :: ps) = member_text p ++ members_tail ps.
Proof.
  revert p. induction ps as [|q ps IH]; intros [k x].
  - change (members_text [(k, x)]) with (member_text (k, x)).
    change (members_tail []) with (@nil N). now rewrite app_nil_r.
  - change (members_text ((k, x) :: q :: ps))
      with (JSON.quote k ++ js ":" ++ JSON.stringify x ++ js "," ++ members_text (q :: ps)).
    rewrite IH.
    change (members_tail (q :: ps)) with ((js "," ++ member_text q) ++ members_tail ps).
    unfold member_text. cbn [fst snd]. now rewrite <- !app_assoc.
Qed.

Lemma stringify_array_cons (x : value) (l : list value) :
  JSON.stringify (JArray (x :: l))
  = 91%N :: JSON.stringify x ++ items_tail l ++ [93%N].
Proof.
  rewrite stringify_array, items_text_cons.
  change (js "[") with [91%N]. change (js "]") with [93%N].
  cbn [app]. now rewrite <- app_assoc.
Qed.

Lemma stringify_object_cons (p : jsstring * value) (ps : list (jsstring * value)) :
  JSON.stringify (JObject (p :: ps))
  = 123%N :: member_text p ++ members_tail ps ++ [125%N].
Proof.
  rewrite stringify_object, members_text_cons.
  change (js "{") with [123%N]. change (js "}") with [125%N].
  cbn [app]. now rewrite <- app_assoc.
Qed.

(** The text of a plain value starts with a character that is neither
    white space nor a closing bracket. *)
Lemma stringify_head (v : value) :
  plain v = true ->
  exists c0 t,
    JSON.stringify v = c0 :: t
    /\ JSON.is_ws c0 = false /\ (c0 =? 93)%N = false /\ (c0 =? 125)%N = false.
Proof.
  destruct v as [|b|n|s|l|ps]; intros Hp; try discriminate Hp.
  - do 2 eexists. split; [reflexivity|]. repeat split.
  - destruct b; do 2 eexists; (split; [reflexivity|]); repeat split.
  - do 2 eexists. split; [reflexivity|]. repeat split.
  - do 2 eexists. split; [cbn [JSON.stringify]; change (js "[") with [91%N];
      reflexivity|]. repeat split.
  - do 2 eexists. split; [cbn [JSON.stringify]; change (js "{") with [123%N];
      reflexivity|]. repeat split.
Qed.

Lemma skip_ws_head (c : N) (r : jsstring) :
  JSON.is_ws c = false -> JSON.skip_ws (c :: r) = c :: r.
Proof. intros H. cbn [JSON.skip_ws]. now rewrite H. Qed.

Lemma parse_member_quote (parse : jsstring -> option (value * jsstring))
      (k rest : jsstring) :
  JSON.parse_member parse (JSON.quote k ++ 58%N :: rest)
  = match parse rest with
    | Some (v, r) => Some (k, v, r)
    | None => None
    end.
Proof.
  unfold JSON.parse_member, JSON.quote. cbn [app].
  rewrite skip_ws_head by reflexivity. change (34 =? 34)%N with true. cbv iota.
  rewrite <- app_assoc. cbn [app].
  rewrite (parse_chars_quote_chars (List.length k)) by apply le_n.
  rewrite skip_ws_head by reflexivity. change (58 =? 58)%N with true. cbv iota.
  reflexivity.
Qed.

Lemma lookup_fresh (acc : list (jsstring * value)) (k : jsstring) :
  existsb (fun y => JsString.eqb y k) (List.map fst acc) = false -> lookup acc k = None.
Proof.
  induction acc as [|[k' v] acc IH]; [reflexivity|].
  cbn [List.map fst existsb lookup]. intros H.
  apply orb_false_elim in H. destruct H as [-> H]. now apply IH.
Qed.

Lemma set_prop_fresh (acc : list (jsstring * value)) (k : jsstring) (v : value)
      (ks : list jsstring) :
  keys_fresh (List.map fst acc) (k :: ks) = true ->
  JSON.set_prop acc k v = acc ++ [(k, v)]
  /\ keys_fresh (List.map fst (acc ++ [(k, v)])) ks = true.
Proof.
  cbn [keys_fresh]. intros H.
  apply andb_prop in H. destruct H as [H Hks].
  apply andb_prop in H. destruct H as [Hseen Hidx].
  apply negb_true_iff in Hseen. split.
  - unfold JSON.set_prop. rewrite (lookup_fresh _ _ Hseen).
    destruct (JSON.array_index k); [discriminate Hidx | reflexivity].
  - now rewrite map_app.
Qed.

Ltac sizes :=
  repeat (progress (rewrite ?length_app in *; cbn [List.length] in * )); lia.

(** [JSON.parse] reads the text that [JSON.stringify] writes for a plain
    value back as that value. *)
Lemma parse_stringify (fuel : nat) :
  (forall v rest,
      plain v = true ->
      (List.length (JSON.stringify v ++ rest) < fuel)%nat ->
      JSON.parse_value fuel (JSON.stringify v ++ rest) = Some (v, rest))
  /\ (forall l acc rest,
         forallb plain l = true ->
         (List.length (items_tail l ++ 93%N :: rest) < fuel)%nat ->
         JSON.parse_elements fuel acc (items_tail l ++ 93%N :: rest)
         = Some (JArray (rev acc ++ l), rest))
  /\ (forall ps acc rest,
         keys_fresh (List.map fst acc) (List.map fst ps) = true ->
         forallb (fun p => plain (snd p)) ps = true ->
         (List.length (members_tail ps ++ 125%N :: rest) < fuel)%nat ->
         JSON.parse_members fuel acc (members_tail ps ++ 125%N :: rest)
         = Some (JObject (acc ++ ps), rest)).
Proof.
  induction fuel as [|f (IHv & IHe & IHm)].
  - repeat split; intros; lia.
  - split; [|split].
    + intros v rest Hp Hlen.
      destruct v as [|b|n|s|l|ps]; try discriminate Hp.
      * reflexivity.
      * destruct b; reflexivity.
      * cbn [JSON.stringify]. unfold JSON.quote. cbn [app].
        rewrite <- app_assoc. cbn [app JSON.parse_value].
        rewrite skip_ws_head by reflexivity.
        change (34 =? 123)%N with false. change (34 =? 91)%N with false.
        change (34 =? 34)%N with true. cbv iota.
        now rewrite (parse_chars_quote_chars (List.length s)) by apply le_n.
      * rewrite plain_array in Hp. destruct l as [|x l].
        { reflexivity. }
        cbn [forallb] in Hp. apply andb_prop in Hp. destruct Hp as [Hx Hl].
        rewrite stringify_array_cons in Hlen |- *.
        cbn [app JSON.parse_value].
        rewrite skip_ws_head by reflexivity.
        change (91 =? 123)%N with false. change (91 =? 91)%N with true. cbv iota.
        destruct (stringify_head x Hx) as (c0 & t & Hhead & Hws & H93 & _).
        rewrite <- !app_assoc. cbn [app].
        assert (Hskip : JSON.skip_ws (JSON.stringify x ++ items_tail l ++ 93%N :: rest)
                        = c0 :: t ++ items_tail l ++ 93%N :: rest)
          by (rewrite Hhead; apply skip_ws_head; exact Hws).
        rewrite Hskip, H93.
        rewrite IHv by (try exact Hx; sizes).
        rewrite (IHe l [x] rest Hl) by sizes. reflexivity.
      * rewrite plain_object in Hp. apply andb_prop in Hp. destruct Hp as [Hk Hall].
        destruct ps as [|[k x] ps].
        { reflexivity. }
        cbn [forallb snd] in Hall. apply andb_prop in Hall. destruct Hall as [Hx Hps].
        rewrite stringify_object_cons in Hlen |- *.
        unfold member_text in Hlen |- *. cbn [fst snd] in Hlen |- *.
        change (js ":") with [58%N] in Hlen |- *.
        cbn [app JSON.parse_value].
        rewrite skip_ws_head by reflexivity.
        change (123 =? 123)%N with true. cbv iota.
        rewrite <- !app_assoc. cbn [app].
        unfold JSON.quote at 1. cbn [app]. rewrite skip_ws_head by reflexivity.
        change (34 =? 125)%N with false. cbv iota.
        rewrite parse_member_quote.
        rewrite IHv by (try exact Hx; unfold JSON.quote in *; sizes).
        cbn [List.map fst] in Hk.
        destruct (set_prop_fresh [] k x (List.map fst ps) Hk) as [_ Hk'].
        rewrite (IHm ps [(k, x)] rest Hk' Hps) by (unfold JSON.quote in *; sizes).
        reflexivity.
    + intros l acc rest Hl Hlen. destruct l as [|y l].
      * cbn [items_tail flat_map app JSON.parse_elements].
        rewrite skip_ws_head by reflexivity. change (93 =? 93)%N with true.
        cbv iota. now rewrite app_nil_r.
      * cbn [forallb] in Hl. apply andb_prop in Hl. destruct Hl as [Hy Hl].
        cbn [items_tail flat_map] in Hlen |- *. fold (items_tail l) in Hlen |- *.
        change (js ",") with [44%N] in Hlen |- *.
        rewrite <- !app_assoc in Hlen |- *. cbn [app] in Hlen |- *.
        cbn [JSON.parse_elements].
        rewrite skip_ws_head by reflexivity.
        change (44 =? 93)%N with false. change (44 =? 44)%N with true. cbv iota.
        rewrite IHv by (try exact Hy; sizes).
        rewrite (IHe l (y :: acc) rest Hl) by sizes.
        cbn [rev]. now rewrite <- app_assoc.
    + intros ps acc rest Hk Hps Hlen. destruct ps as [|[k x] ps].
      * cbn [members_tail flat_map app JSON.parse_members].
        rewrite skip_ws_head by reflexivity. change (125 =? 125)%N with true.
        cbv iota. now rewrite app_nil_r.
      * cbn [forallb snd] in Hps. apply andb_prop in Hps. destruct Hps as [Hx Hps].
        cbn [members_tail flat_map] in Hlen |- *. fold (members_tail ps) in Hlen |- *.
        unfold member_text in Hlen |- *. cbn [fst snd] in Hlen |- *.
        change (js ",") with [44%N] in Hlen |- *.
        change (js ":") with [58%N] in Hlen |- *.
        rewrite <- !app_assoc in Hlen |- *. cbn [app] in Hlen |- *.
        cbn [JSON.parse_members].
        rewrite skip_ws_head by reflexivity.
        change (44 =? 125)%N with false. change (44 =? 44)%N with true. cbv iota.
        rewrite parse_member_quote.
        rewrite IHv by (try exact Hx; unfold JSON.quote in *; sizes).
        cbn [List.map fst] in Hk.
        destruct (set_prop_fresh acc k x (List.map fst ps) Hk) as [-> Hk'].
        rewrite (IHm ps (acc ++ [(k, x)]) rest Hk' Hps)
          by (unfold JSON.quote in *; sizes).
        now rewrite <- app_assoc.
Qed.

Lemma parse_stringify_plain (v : value) :
  plain v = true -> JSON.parse (JSON.stringify v) = inr v.
Proof.
  intros Hp. unfold JSON.parse.
  rewrite <- (app_nil_r (JSON.stringify v)) at 2.
  rewrite (proj1 (parse_stringify (S (List.length (JSON.stringify v)))) v [] Hp)
    by (rewrite app_nil_r; lia).
  reflexivity.
Qed.

End RoundTrip.

(** X9: the body of the request is well-formed JSON that carries the
    instruction, the media type and the image data unchanged: for every
    configuration, every media type and every image data string (whatever
    code units they contain: quotes, backslashes, control characters, lone
    surrogates), [JSON.parse] reads the body that [JSON.stringify] wrote
    back as the object with contents, parts, text and inline_data that the
    analyzer built. *)
Theorem X9_request_body_round_trip (w : World) (mimeType base64Image : jsstring) :
  JSON.parse (body (build_request w mimeType base64Image))
  = inr (request_payload mimeType base64Image).
Proof.
  cbn [body build_request]. apply parse_stringify_plain. reflexivity.
Qed.

(** ** The screen that calls the analyzer *)

Section ScreenFacts.

Variable native : exn -> jsstring.
Variable w : World.

Lemma host_events_map (t : list event) : host_events (List.map Host t) = t.
Proof. induction t as [|ev t IH]; [reflexivity|]. cbn. f_equal. exact IH. Qed.

Lemma alerts_map (t : list event) : alerts (List.map Host t) = [].
Proof. induction t as [|ev t IH]; [reflexivity|]. exact IH. Qed.

Lemma host_events_app (a b : list ui_event) :
  host_events (a ++ b) = host_events a ++ host_events b.
Proof. apply flat_map_app. Qed.

Lemma alerts_app (a b : list ui_event) : alerts (a ++ b) = alerts a ++ alerts b.
Proof. apply flat_map_app. Qed.

Lemma requests_app (a b : list event) : requests (a ++ b) = requests a ++ requests b.
Proof. apply flat_map_app. Qed.

(** A run of the handler, in one step. *)
Lemma handleImageAnalysis_run (uri : jsstring) (mimeType : option jsstring) (s : Screen) :
  handleImageAnalysis native w uri mimeType s
  = (List.map Host (trace (analyzeImageWithGemini w uri mimeType))
     ++ match outcome (analyzeImageWithGemini w uri mimeType) with
        | inr _ => []
        | inl err => [Alert (js "Analysis Failed") (errorMessage native err)]
        end,
     {| imageUri := imageUri s;
        mealResult := match outcome (analyzeImageWithGemini w uri mimeType) with
                      | inr result => result
                      | inl _ => JNull
                      end;
        isLoading := false;
        isCameraActive := isCameraActive s |},
     inr tt).
Proof.
  unfold handleImageAnalysis, ui_bind, ui_finally, ui_try_catch, await, update, alert.
  destruct (analyzeImageWithGemini w uri mimeType) as [t [err|result]];
    cbn; now rewrite ?app_nil_r.
Qed.

(** The image is read and its media type is in the list: the request is
    submitted, and no other. *)
Lemma requests_readable (uri : jsstring) (mimeType : option jsstring) (bytes : list byte) :
  file_bytes w uri = inr bytes ->
  includes supportedMimeTypes (mime_or_default mimeType) = true ->
  requests (trace (analyzeImageWithGemini w uri mimeType))
  = [build_request w (mime_or_default mimeType) (Base64.encode bytes)].
Proof.
  intros Hread Hmime.
  destruct (fetch w (build_request w (mime_or_default mimeType) (Base64.encode bytes)))
    as [e|response] eqn:Hfetch.
  - now rewrite (analyze_rejected w uri mimeType bytes e Hread Hmime Hfetch).
  - rewrite (analyze_answered w uri mimeType bytes response Hread Hmime Hfetch).
    cbn [trace fst]. unfold requests. rewrite flat_map_app.
    fold (requests (trace (handle_response response))).
    now rewrite handle_response_requests.
Qed.

End ScreenFacts.

(** X10: a failure of the analyzer is shown once and leaves no result.
    When the call of the analyzer has failed with [err], the handler has
    shown one dialog, titled Analysis Failed, with the message of [err]; the
    result of the screen is null, whatever it was before; the handler has
    performed the events of that one call of the analyzer and no others
    (the screen does not call the analyzer again); and, outside the
    camera, the component renders the initial view. *)
Theorem X10_failure_shown_once (native : exn -> jsstring) (w : World) (uri : jsstring)
        (mimeType : option jsstring) (s : Screen) (err : exn) :
  outcome (analyzeImageWithGemini w uri mimeType) = inl err ->
  alerts (ui_events (handleImageAnalysis native w uri mimeType s))
  = [(js "Analysis Failed", errorMessage native err)]
  /\ mealResult (ui_screen (handleImageAnalysis native w uri mimeType s)) = JNull
  /\ host_events (ui_events (handleImageAnalysis native w uri mimeType s))
     = trace (analyzeImageWithGemini w uri mimeType)
  /\ (isCameraActive s = false ->
      render (ui_screen (handleImageAnalysis native w uri mimeType s)) = InitialView).
Proof.
  intros Hfail. rewrite handleImageAnalysis_run.
  unfold ui_screen, ui_events, render.
  cbn [fst snd isLoading imageUri isCameraActive mealResult].
  rewrite host_events_app, alerts_app, host_events_map, alerts_map, Hfail.
  split; [reflexivity|]. split; [reflexivity|]. split.
  - cbn. now rewrite app_nil_r.
  - intros ->. now destruct (imageUri s) as [[|c u]|].
Qed.

Lemma X10_failure_shown_once_witness :
  outcome (analyzeImageWithGemini (world_with (inr quota_response)) sample_uri None)
  = inl (UpstreamError (js "quota exceeded"))
  /\ alerts (ui_events (handleImageAnalysis
                          no_native (world_with (inr quota_response)) sample_uri None
                          (setMealResult apple_record
                             (setImageUri (Some sample_uri) initial_screen))))
     = [(js "Analysis Failed", js "API Error: quota exceeded")]
  /\ render (ui_screen (handleImageAnalysis
                          no_native (world_with (inr quota_response)) sample_uri None
                          (setMealResult apple_record
                             (setImageUri (Some sample_uri) initial_screen))))
     = InitialView.
Proof.
  assert (H : outcome (analyzeImageWithGemini (world_with (inr quota_response))
                                              sample_uri None)
              = inl (UpstreamError (js "quota exceeded"))) by reflexivity.
  split; [exact H|].
  destruct (X10_failure_shown_once
              no_native (world_with (inr quota_response)) sample_uri None
              (setMealResult apple_record (setImageUri (Some sample_uri) initial_screen))
              (UpstreamError (js "quota exceeded")) H) as (Ha & _ & _ & Hr).
  split; [exact Ha | exact (Hr eq_refl)].
Defined.

(** X11: the screen never shows a stale or a partial result.  If the result
    view is shown after an analysis, the value it shows is the one that this
    call of the analyzer returned, it is truthy, the image is the one in the
    state, and no dialog was shown; whatever result the screen held
    before. *)
Theorem X11_result_view_only_after_success (native : exn -> jsstring) (w : World)
        (uri : jsstring) (mimeType : option jsstring) (s : Screen)
        (shown : jsstring) (meal : value) :
  render (ui_screen (handleImageAnalysis native w uri mimeType s)) = ResultView shown meal ->
  outcome (analyzeImageWithGemini w uri mimeType) = inr meal
  /\ truthy (Some meal) = true
  /\ imageUri s = Some shown
  /\ alerts (ui_events (handleImageAnalysis native w uri mimeType s)) = [].
Proof.
  rewrite handleImageAnalysis_run.
  unfold ui_screen, ui_events, render.
  cbn [fst snd isLoading imageUri isCameraActive mealResult].
  rewrite alerts_app, alerts_map.
  destruct (isCameraActive s); [discriminate|].
  destruct (imageUri s) as [[|c u]|]; try discriminate.
  destruct (outcome (analyzeImageWithGemini w uri mimeType)) as [err|result];
    [discriminate|].
  destruct (truthy (Some result)) eqn:Ht; [|discriminate].
  intros H. injection H as <- <-. auto.
Qed.

Lemma X11_result_view_only_after_success_witness :
  render (ui_screen (handleImageAnalysis
                       no_native (world_with (inr (reply (JString apple_text))))
                       sample_uri None
                       (setMealResult (JString (js "stale"))
                          (setImageUri (Some sample_uri) initial_screen))))
  = ResultView sample_uri apple_record
  /\ outcome (analyzeImageWithGemini (world_with (inr (reply (JString apple_text))))
                                     sample_uri None) = inr apple_record.
Proof.
  assert (H : render (ui_screen (handleImageAnalysis
                       no_native (world_with (inr (reply (JString apple_text))))
                       sample_uri None
                       (setMealResult (JString (js "stale"))
                          (setImageUri (Some sample_uri) initial_screen))))
              = ResultView sample_uri apple_record).
  { vm_compute. reflexivity. }
  split; [exact H|].
  exact (proj1 (X11_result_view_only_after_success _ _ _ _ _ _ _ H)).
Defined.

(** X12: a falsy value returned by the analyzer is a silent failure.  When
    the analyzer returns null, false, zero or the empty string (as it does
    for a reply such as null followed by an opening brace), the screen shows
    no dialog and, outside the camera, goes back to the initial view: the
    user gets neither a result nor an error. *)
Theorem X12_falsy_result_is_silent (native : exn -> jsstring) (w : World)
        (uri : jsstring) (mimeType : option jsstring) (s : Screen) (result : value) :
  outcome (analyzeImageWithGemini w uri mimeType) = inr result ->
  truthy (Some result) = false ->
  isCameraActive s = false ->
  alerts (ui_events (handleImageAnalysis native w uri mimeType s)) = []
  /\ render (ui_screen (handleImageAnalysis native w uri mimeType s)) = InitialView.
Proof.
  intros Hout Hfalsy Hcam. rewrite handleImageAnalysis_run.
  unfold ui_screen, ui_events, render.
  cbn [fst snd isLoading imageUri isCameraActive mealResult].
  rewrite alerts_app, alerts_map, Hout, Hcam, Hfalsy. split; [reflexivity|].
  now destruct (imageUri s) as [[|c u]|].
Qed.

Lemma X12_falsy_result_is_silent_witness :
  outcome (analyzeImageWithGemini (world_with (inr (reply (JString (js "null{")))))
                                  sample_uri None) = inr JNull
  /\ alerts (ui_events (handleImageAnalysis
                          no_native (world_with (inr (reply (JString (js "null{")))))
                          sample_uri None (setImageUri (Some sample_uri) initial_screen)))
     = []
  /\ render (ui_screen (handleImageAnalysis
                          no_native (world_with (inr (reply (JString (js "null{")))))
                          sample_uri None (setImageUri (Some sample_uri) initial_screen)))
     = InitialView.
Proof.
  assert (H : outcome (analyzeImageWithGemini
                         (world_with (inr (reply (JString (js "null{")))))
                         sample_uri None) = inr JNull).
  { vm_compute. reflexivity. }
  split; [exact H|].
  exact (X12_falsy_result_is_silent
           no_native (world_with (inr (reply (JString (js "null{")))))
           sample_uri None (setImageUri (Some sample_uri) initial_screen) JNull
           H eq_refl eq_refl).
Defined.

(** X13: a photo taken with the camera is analysed as image/jpeg, a media
    type of the list: when the photo can be read, the one request of the
    run carries its data under that media type (it is never refused as an
    unsupported format); the camera is closed, the photo becomes the image
    of the screen, and the loading flag is cleared. *)
Theorem X13_captured_photo_is_submitted (native : exn -> jsstring) (w : World)
        (d : Device) (s : Screen) (uri : jsstring) (bytes : list byte) :
  cameraRef d = Some (inr uri) ->
  file_bytes w uri = inr bytes ->
  let run := capturePhoto native w d s in
  requests (host_events (ui_events run))
  = [build_request w (js "image/jpeg") (Base64.encode bytes)]
  /\ isCameraActive (ui_screen run) = false
  /\ imageUri (ui_screen run) = Some uri
  /\ isLoading (ui_screen run) = false.
Proof.
  intros Hcam Hread. cbv zeta.
  unfold capturePhoto. rewrite Hcam.
  unfold ui_bind, settle, update.
  rewrite handleImageAnalysis_run.
  unfold ui_screen, ui_events.
  cbn [fst snd app isLoading imageUri isCameraActive mealResult
       setImageUri setIsCameraActive].
  rewrite host_events_app, host_events_map.
  repeat split.
  rewrite requests_app.
  rewrite (requests_readable w uri (Some (js "image/jpeg")) bytes Hread eq_refl).
  destruct (outcome (analyzeImageWithGemini w uri (Some (js "image/jpeg"))));
    cbn; reflexivity.
Qed.

Lemma X13_captured_photo_is_submitted_witness :
  requests (host_events (ui_events
     (capturePhoto no_native (world_with (inl TypeError))
        {| requestMediaLibraryPermissionsAsync := inr true;
           launchImageLibraryAsync := inr None;
           requestPermission := inr true;
           cameraRef := Some (inr sample_uri) |}
        (setIsCameraActive true initial_screen))))
  = [build_request (world_with (inl TypeError)) (js "image/jpeg")
                   (Base64.encode sample_bytes)].
Proof.
  exact (proj1 (X13_captured_photo_is_submitted
                  no_native (world_with (inl TypeError))
                  {| requestMediaLibraryPermissionsAsync := inr true;
                     launchImageLibraryAsync := inr None;
                     requestPermission := inr true;
                     cameraRef := Some (inr sample_uri) |}
                  (setIsCameraActive true initial_screen)
                  sample_uri sample_bytes eq_refl eq_refl)).
Defined.

(** X14: what happens to an image picked from the library, once the
    permission is granted and the image can be read, depends on the media
    type of the asset.  An asset whose media type is undefined is submitted
    as image/jpeg, the default of the parameter.  An asset whose media type
    is null does not take the default: it is not submitted, and one dialog
    titled Analysis Failed names the unsupported format null.  An asset
    whose media type is a string outside the list is not submitted either,
    and the dialog names that media type.  In all cases the asset becomes
    the image of the screen. *)
Theorem X14_picked_image_media_type (native : exn -> jsstring) (w : World)
        (d : Device) (s : Screen) (asset : Asset) (bytes : list byte) :
  requestMediaLibraryPermissionsAsync d = inr true ->
  launchImageLibraryAsync d = inr (Some asset) ->
  file_bytes w (asset_uri asset) = inr bytes ->
  let run := pickImage native w d s in
  imageUri (ui_screen run) = Some (asset_uri asset)
  /\ (asset_mimeType asset = Undefined ->
      requests (host_events (ui_events run))
      = [build_request w (js "image/jpeg") (Base64.encode bytes)])
  /\ (asset_mimeType asset = Null ->
      requests (host_events (ui_events run)) = []
      /\ alerts (ui_events run)
         = [(js "Analysis Failed",
             js "Unsupported image format: null. Convert to JPEG or PNG.")]
      /\ mealResult (ui_screen run) = JNull)
  /\ (forall m,
         asset_mimeType asset = Str m ->
         includes supportedMimeTypes m = false ->
         requests (host_events (ui_events run)) = []
         /\ alerts (ui_events run)
            = [(js "Analysis Failed",
                js "Unsupported image format: " ++ m ++ js ". Convert to JPEG or PNG.")]
         /\ mealResult (ui_screen run) = JNull).
Proof.
  intros Hperm Hpick Hread. cbv zeta.
  unfold pickImage, ui_bind, settle, update. rewrite Hperm. cbn [negb].
  rewrite Hpick. rewrite handleImageAnalysis_run.
  unfold ui_screen, ui_events.
  cbn [fst snd app isLoading imageUri isCameraActive mealResult setImageUri].
  rewrite host_events_app, host_events_map, alerts_app, alerts_map.
  split; [reflexivity|]. split; [|split].
  - intros Hnone. rewrite Hnone. cbn [mime_argument].
    rewrite requests_app.
    rewrite (requests_readable w (asset_uri asset) None bytes Hread eq_refl).
    destruct (outcome (analyzeImageWithGemini w (asset_uri asset) None));
      cbn; reflexivity.
  - intros Hnull. rewrite Hnull. cbn [mime_argument].
    rewrite (analyze_unsupported w (asset_uri asset) (Some (js "null")) bytes Hread
               eq_refl).
    repeat split; reflexivity.
  - intros m Hm Hmime. rewrite Hm. cbn [mime_argument].
    rewrite (analyze_unsupported w (asset_uri asset) (Some m) bytes Hread Hmime).
    repeat split; reflexivity.
Qed.

Lemma X14_picked_image_media_type_witness :
  alerts (ui_events
     (pickImage no_native (world_with (inl TypeError))
        {| requestMediaLibraryPermissionsAsync := inr true;
           launchImageLibraryAsync :=
             inr (Some {| asset_uri := sample_uri; asset_mimeType := Null |});
           requestPermission := inr true;
           cameraRef := None |}
        initial_screen))
  = [(js "Analysis Failed",
      js "Unsupported image format: null. Convert to JPEG or PNG.")].
Proof.
  exact (proj1 (proj2 (proj1 (proj2 (proj2 (X14_picked_image_media_type
     no_native (world_with (inl TypeError))
     {| requestMediaLibraryPermissionsAsync := inr true;
        launchImageLibraryAsync :=
          inr (Some {| asset_uri := sample_uri; asset_mimeType := Null |});
        requestPermission := inr true;
        cameraRef := None |}
     initial_screen
     {| asset_uri := sample_uri; asset_mimeType := Null |}
     sample_bytes eq_refl eq_refl eq_refl))) eq_refl))).
Defined.

(** ** Replies that are the text of an object *)

(** X15: the analyzer undoes [JSON.stringify] on objects.  When the reply
    is the text that [JSON.stringify] writes for an object of strings,
    booleans, nulls, arrays and objects (with distinct keys that are not
    array indices), and no string in it holds three backticks in a row, the
    cleaning, the trimming and the slicing leave the text as it is and the
    analyzer returns that very object. *)
Theorem X15_object_text_returned (w : World) (uri : jsstring) (mimeType : option jsstring)
        (response : Response) (data : value) (props : list (jsstring * value)) :
  answered w uri mimeType response ->
  ok response = true ->
  json response = inr data ->
  first_text data = Some (JString (JSON.stringify (JObject props))) ->
  plain (JObject props) = true ->
  has_fence (JSON.stringify (JObject props)) = false ->
  outcome (analyzeImageWithGemini w uri mimeType) = inr (JObject props).
Proof.
  intros Hans Hok Hjson Htext Hplain Hfence.
  rewrite (ok_outcome w uri mimeType response data Hans Hok Hjson), Htext.
  assert (Hshape : JSON.stringify (JObject props)
                   = [] ++ lbrace :: members_text props ++ rbrace :: []) by reflexivity.
  assert (Hslice : json_slice (JSON.stringify (JObject props))
                   = JSON.stringify (JObject props)).
  { rewrite (json_slice_span (JSON.stringify (JObject props)) []
               (members_text props) []).
    - reflexivity.
    - unfold strip_fences. rewrite (strip_fences_fixed _ Hfence). exact Hshape.
    - intros [].
    - intros []. }
  unfold reply_outcome, extract. rewrite Hslice.
  rewrite (parse_stringify_plain _ Hplain).
  rewrite Hshape. reflexivity.
Qed.

Lemma X15_object_text_returned_witness :
  outcome (analyzeImageWithGemini
             (world_with (inr (reply (JString (JSON.stringify
                (JObject [(js "meal_name", JString (js "Apple"));
                          (js "tags", JArray [JString (js "fruit"); JNull])]))))))
             sample_uri None)
  = inr (JObject [(js "meal_name", JString (js "Apple"));
                  (js "tags", JArray [JString (js "fruit"); JNull])]).
Proof.
  apply (X15_object_text_returned
           (world_with (inr (reply (JString (JSON.stringify
              (JObject [(js "meal_name", JString (js "Apple"));
                        (js "tags", JArray [JString (js "fruit"); JNull])]))))))
           sample_uri None
           (reply (JString (JSON.stringify
              (JObject [(js "meal_name", JString (js "Apple"));
                        (js "tags", JArray [JString (js "fruit"); JNull])]))))
           (envelope (JString (JSON.stringify
              (JObject [(js "meal_name", JString (js "Apple"));
                        (js "tags", JArray [JString (js "fruit"); JNull])]))))).
  - sample_answered.
  - reflexivity.
  - reflexivity.
  - reflexivity.
  - reflexivity.
  - vm_compute. reflexivity.
Defined.

(** ** The text part of the envelope *)

Lemma first_text_text_part (data : value) (found : option value) :
  text_part data found -> first_text data = found.
Proof.
  intros H. destruct H as [top candidate content part candidates parts text H1 H2 H3 H4
                          | | top H1
                          | top candidate candidates H1 H2
                          | top candidate content candidates H1 H2 H3
                          | top candidate content part candidates parts H1 H2 H3 H4].
  - exact (first_text_envelope text parts candidates part content candidate top
             H1 H2 H3 H4).
  - reflexivity.
  - unfold first_text. cbn [opt_chain get_prop].
    destruct H1 as [-> | ->]; reflexivity.
  - unfold first_text. cbn [opt_chain get_prop].
    rewrite H1. cbn [opt_chain get_index0 hd_error get_prop]. now rewrite H2.
  - unfold first_text. cbn [opt_chain get_prop].
    rewrite H1. cbn [opt_chain get_index0 hd_error get_prop].
    rewrite H2. cbn [opt_chain get_prop].
    destruct H3 as [-> | ->]; reflexivity.
  - unfold first_text. cbn [opt_chain get_prop].
    rewrite H1. cbn [opt_chain get_index0 hd_error get_prop].
    rewrite H2. cbn [opt_chain get_prop].
    rewrite H3. cbn [opt_chain get_index0 hd_error get_prop]. exact H4.
Qed.

(** X16: on an [ok] response whose body decodes, the analyzer works with
    the text of the first part of the first candidate and with nothing
    else of the body.  When the body is null, or the candidates, the
    content, the parts or the text are missing, it fails with
    EmptyResponse.  When the text is there, the outcome is decided by it
    alone: EmptyResponse when it is falsy, and when it is a string that is
    not empty, the value that [JSON.parse] reads off its slice, or
    MalformedPayload when the slice does not parse. *)
Theorem X16_envelope_text_part (w : World) (uri : jsstring) (mimeType : option jsstring)
        (response : Response) (data : value) (found : option value) :
  answered w uri mimeType response ->
  ok response = true ->
  json response = inr data ->
  text_part data found ->
  match found with
  | None => outcome (analyzeImageWithGemini w uri mimeType) = inl EmptyResponse
  | Some text =>
      (truthy (Some text) = false ->
       outcome (analyzeImageWithGemini w uri mimeType) = inl EmptyResponse)
      /\ (forall c s,
             text = JString (c :: s) ->
             outcome (analyzeImageWithGemini w uri mimeType)
             = match JSON.parse (json_slice (c :: s)) with
               | inr v => inr v
               | inl _ => inl MalformedPayload
               end)
  end.
Proof.
  intros Hans Hok Hjson Hpart.
  rewrite (ok_outcome w uri mimeType response data Hans Hok Hjson).
  rewrite (first_text_text_part data found Hpart).
  destruct found as [text|]; [|reflexivity]. split.
  - intros Hfalsy. cbn [reply_outcome]. now rewrite Hfalsy.
  - intros c s ->. reflexivity.
Qed.

Lemma X16_envelope_text_part_witness :
  text_part (crowded_envelope (JString apple_text)) (Some (JString apple_text))
  /\ outcome (analyzeImageWithGemini
                (world_with (inr {| ok := true; statusText := js "OK";
                                    json := inr (crowded_envelope (JString apple_text)) |}))
                sample_uri None)
     = inr apple_record.
Proof.
  assert (H : text_part (crowded_envelope (JString apple_text))
                        (Some (JString apple_text))).
  { unfold crowded_envelope. eapply text_found; reflexivity. }
  split; [exact H|].
  assert (Hans : answered
            (world_with (inr {| ok := true; statusText := js "OK";
                                json := inr (crowded_envelope (JString apple_text)) |}))
            sample_uri None
            {| ok := true; statusText := js "OK";
               json := inr (crowded_envelope (JString apple_text)) |})
    by sample_answered.
  rewrite (proj2 (X16_envelope_text_part _ _ _ _ _ _ Hans eq_refl eq_refl H)
             123%N (List.tl apple_text) eq_refl).
  vm_compute. reflexivity.
Defined.
